(** * populate_nfl_data: a shallow embedding and its properties

    The script [populate_nfl_data.py] creates four PostgreSQL tables,
    seeds the 32 league teams and, week by week, fetches a JSON
    scoreboard over HTTP and upserts one row per game.

    The embedding follows the script function by function.  Python
    values decoded from JSON are the inductive [pyval]; exceptions are
    values of [exn] threaded through an error monad; the database, the
    standard output and the network are an explicit [world] threaded
    through a state-and-error monad.  Everything the script obtains from
    outside (the process environment, the HTTP server, the database
    server's input conversion, the interpreter's message texts) is a
    field of the record [platform]. *)

From Stdlib Require Import ZArith String Ascii List Lia DecimalString SpecFloat.
From stdpp Require Import gmap strings list.

Open Scope Z_scope.

(** ** Python values *)

Module Py.

(** The values [json.loads] produces: [None], booleans, integers,
    floats (IEEE doubles, as [spec_float]), strings, lists and dicts.  A
    dict is kept as its items in insertion order; keys are unique. *)
#[warnings="-register-all"]
Inductive pyval : Type :=
| JNull
| JBool (b : bool)
| JInt (z : Z)
| JFloat (f : spec_float)
| JStr (s : string)
| JArr (l : list pyval)
| JObj (d : list (string * pyval)).

Inductive pytype : Type :=
| TyNone | TyBool | TyInt | TyFloat | TyStr | TyList | TyDict.

Definition type_of (v : pyval) : pytype :=
  match v with
  | JNull => TyNone
  | JBool _ => TyBool
  | JInt _ => TyInt
  | JFloat _ => TyFloat
  | JStr _ => TyStr
  | JArr _ => TyList
  | JObj _ => TyDict
  end.

(** Errors of the database driver ([psycopg2.Error] and subclasses). *)
Inductive pg_error : Type :=
| ConnectionFailed
| UndefinedTable (name : string)
| ForeignDefinition (name : string)
| InvalidForeignKey (name : string)
| DataError
| NotNullViolation
| UniqueViolation
| CardinalityViolation.

(** The exceptions the script can meet.  All of them derive from
    Python's [Exception]. *)
Inductive exn : Type :=
| ValueError (msg : string)
| InvalidIntLiteral (s : string)
| FloatNotInteger (f : spec_float)
| AttributeError (ty : pytype) (attr : string)
| NotIterable (ty : pytype)
| NotSubscriptable (ty : pytype)
| BadIntArgument (ty : pytype)
| KeyError (key : Z)
| IndexError
| RequestException (msg : string)
| JSONDecodeError (msg : string)
| DatabaseError (e : pg_error).

Inductive result (A : Type) : Type :=
| Ok (a : A)
| Raise (e : exn).
Arguments Ok {A} a.
Arguments Raise {A} e.

Definition rbind {A B} (r : result A) (k : A -> result B) : result B :=
  match r with
  | Ok a => k a
  | Raise e => Raise e
  end.

Notation "x <-- r ;; k" := (rbind r (fun x => k))
  (at level 100, r at next level, right associativity).

(** [for x in xs: acc = f(acc, x)], stopping at the first exception. *)
Fixpoint rfold {A B} (f : A -> B -> result A) (xs : list B) (a : A) : result A :=
  match xs with
  | [] => Ok a
  | x :: xs' => a' <-- f a x ;; rfold f xs' a'
  end.

(** [bool(v)]: the values Python treats as false. *)
Definition truthy (v : pyval) : bool :=
  match v with
  | JNull => false
  | JBool b => b
  | JInt z => negb (z =? 0)
  | JFloat (S754_zero _) => false
  | JFloat _ => true
  | JStr s => negb (String.eqb s "")
  | JArr l => match l with [] => false | _ => true end
  | JObj d => match d with [] => false | _ => true end
  end.

Fixpoint dict_lookup (k : string) (d : list (string * pyval)) : option pyval :=
  match d with
  | [] => None
  | (k', v) :: d' => if String.eqb k k' then Some v else dict_lookup k d'
  end.

(** [o.get(k, dflt)]; only a dict has the method. *)
Definition get (o : pyval) (k : string) (dflt : pyval) : result pyval :=
  match o with
  | JObj d => Ok (match dict_lookup k d with Some v => v | None => dflt end)
  | _ => Raise (AttributeError (type_of o) "get")
  end.

Fixpoint chars (s : string) : list pyval :=
  match s with
  | EmptyString => []
  | String c s' => JStr (String c EmptyString) :: chars s'
  end.

(** The items a [for] loop draws from a value: the elements of a list,
    the keys of a dict, the characters of a string. *)
Definition iter (v : pyval) : result (list pyval) :=
  match v with
  | JArr l => Ok l
  | JObj d => Ok (map (fun kv => JStr (fst kv)) d)
  | JStr s => Ok (chars s)
  | _ => Raise (NotIterable (type_of v))
  end.

(** [v[0]]. *)
Definition item0 (v : pyval) : result pyval :=
  match v with
  | JArr (x :: _) => Ok x
  | JArr [] => Raise IndexError
  | JStr (String c _) => Ok (JStr (String c EmptyString))
  | JStr EmptyString => Raise IndexError
  | JObj _ => Raise (KeyError 0)
  | _ => Raise (NotSubscriptable (type_of v))
  end.

(** [s.split('T')[0]]: the text before the first [T]. *)
Fixpoint before_T (s : string) : string :=
  match s with
  | EmptyString => EmptyString
  | String c s' => if Ascii.eqb c "T" then EmptyString else String c (before_T s')
  end.

(** [v.split('T')[0]]; only a string has [split]. *)
Definition split_T_0 (v : pyval) : result string :=
  match v with
  | JStr s => Ok (before_T s)
  | _ => Raise (AttributeError (type_of v) "split")
  end.

(** [v == 'home'] and the like: a JSON value equals a string literal
    only when it is that string. *)
Definition eq_str (v : pyval) (s : string) : bool :=
  match v with
  | JStr s' => String.eqb s' s
  | _ => false
  end.

(** *** [int(...)] *)

(** White space as [int] sees it in an ASCII text: tab, line feed,
    vertical tab, form feed, carriage return and space. *)
Definition is_space (c : ascii) : bool :=
  let n := nat_of_ascii c in
  ((9 <=? n) && (n <=? 13) || (n =? 32))%nat.

Definition is_digit (c : ascii) : bool :=
  let n := nat_of_ascii c in ((48 <=? n) && (n <=? 57))%nat.

Definition digit_val (c : ascii) : Z := Z.of_nat (nat_of_ascii c) - 48.

Fixpoint lstrip (l : list ascii) : list ascii :=
  match l with
  | c :: l' => if is_space c then lstrip l' else l
  | [] => []
  end.

Definition strip (l : list ascii) : list ascii :=
  rev (lstrip (rev (lstrip l))).

(** Decimal digits, a single underscore allowed between two digits. *)
Fixpoint digits (acc : Z) (after_us : bool) (l : list ascii) : option Z :=
  match l with
  | [] => if after_us then None else Some acc
  | c :: l' =>
      if is_digit c then digits (10 * acc + digit_val c) false l'
      else if Ascii.eqb c "_" then (if after_us then None else digits acc true l')
      else None
  end.

Definition unsigned_literal (l : list ascii) : option Z :=
  match l with
  | c :: l' => if is_digit c then digits (digit_val c) false l' else None
  | [] => None
  end.

Definition int_literal (s : string) : option Z :=
  match strip (list_ascii_of_string s) with
  | c :: l' =>
      if Ascii.eqb c "-" then option_map Z.opp (unsigned_literal l')
      else if Ascii.eqb c "+" then unsigned_literal l'
      else unsigned_literal (c :: l')
  | [] => None
  end.

Definition is_ascii7 (c : ascii) : bool := (nat_of_ascii c <? 128)%nat.

(** Truncation of a finite double towards zero. *)
Definition trunc_finite (s : bool) (m : positive) (e : Z) : Z :=
  let a := if 0 <=? e then Z.pos m * 2 ^ e else Z.pos m / 2 ^ (- e) in
  if s then - a else a.

Section Int.

(** [int] of a text with characters outside ASCII (other scripts'
    digits and spaces), or longer than the 4300 digits recent
    interpreters stop at, is left to the interpreter. *)
Variable int_other : string -> option Z.

Definition int_of_str (s : string) : option Z :=
  if forallb is_ascii7 (list_ascii_of_string s) && (String.length s <=? 4300)%nat
  then int_literal s
  else int_other s.

Definition int (v : pyval) : result Z :=
  match v with
  | JInt z => Ok z
  | JBool b => Ok (if b then 1 else 0)
  | JFloat (S754_zero _) => Ok 0
  | JFloat (S754_finite s m e) => Ok (trunc_finite s m e)
  | JFloat f => Raise (FloatNotInteger f)
  | JStr s =>
      match int_of_str s with
      | Some z => Ok z
      | None => Raise (InvalidIntLiteral s)
      end
  | _ => Raise (BadIntArgument (type_of v))
  end.

End Int.

(** [str(n)] for an integer. *)
Definition str_int (z : Z) : string := NilZero.string_of_int (Z.to_int z).

End Py.
Import Py.

(** ** The database *)

Module Pg.

Inductive sqltype : Type :=
| TSerial
| TVarchar (n : nat)
| TInteger
| TDate
| TTimestamp.

Inductive sqldefault : Type :=
| NoDefault
| DefaultInt (z : Z)
| DefaultNow.

(** One column of a [CREATE TABLE]; [col_unique] stands for both
    [UNIQUE] and [PRIMARY KEY]. *)
Record column : Type := Column {
  col_name : string;
  col_type : sqltype;
  col_not_null : bool;
  col_unique : bool;
  col_default : sqldefault
}.

(** A foreign key: the column, the table and the column it refers to. *)
Record foreign_key : Type := ForeignKey {
  fk_column : string;
  fk_table : string;
  fk_ref : string
}.

Record table_def : Type := TableDef {
  td_columns : list column;
  td_foreign_keys : list foreign_key
}.

#[global] Instance sqltype_eq_dec : EqDecision sqltype.
Proof. solve_decision. Defined.
#[global] Instance sqldefault_eq_dec : EqDecision sqldefault.
Proof. solve_decision. Defined.
#[global] Instance column_eq_dec : EqDecision column.
Proof. solve_decision. Defined.
#[global] Instance foreign_key_eq_dec : EqDecision foreign_key.
Proof. solve_decision. Defined.
#[global] Instance table_def_eq_dec : EqDecision table_def.
Proof. solve_decision. Defined.

(** A stored value.  Timestamps are kept apart, as integers of the
    server's clock. *)
Inductive sqlval : Type :=
| VNull
| VInt (z : Z)
| VText (s : string)
| VDate (iso : string).

#[global] Instance sqlval_eq_dec : EqDecision sqlval.
Proof. solve_decision. Defined.

Definition is_null (v : sqlval) : bool :=
  match v with VNull => true | _ => false end.

(** Equality as a unique index sees it: [NULL] equals nothing. *)
Definition sql_eq (a b : sqlval) : bool :=
  negb (is_null a) && bool_decide (a = b).

(** The values of one [VALUES] tuple of the two inserts, in column
    order, and the rows as stored. *)
Record team_values : Type := TeamValues {
  tv_team_name : sqlval;
  tv_team_abbr : sqlval;
  tv_conference : sqlval;
  tv_division : sqlval
}.

Record team_row : Type := TeamRow {
  t_id : Z;
  t_team_name : sqlval;
  t_team_abbr : sqlval;
  t_conference : sqlval;
  t_division : sqlval;
  t_created_at : Z
}.

Record game_values : Type := GameValues {
  gv_game_id : sqlval;
  gv_season : sqlval;
  gv_week : sqlval;
  gv_game_date : sqlval;
  gv_home_team : sqlval;
  gv_away_team : sqlval;
  gv_home_score : sqlval;
  gv_away_score : sqlval;
  gv_status : sqlval
}.

Record game_row : Type := GameRow {
  g_id : Z;
  g_game_id : sqlval;
  g_season : sqlval;
  g_week : sqlval;
  g_game_date : sqlval;
  g_home_team : sqlval;
  g_away_team : sqlval;
  g_home_score : sqlval;
  g_away_score : sqlval;
  g_status : sqlval;
  g_created_at : Z;
  g_updated_at : Z
}.

(** The rows of a table and the next value of the sequence behind its
    [SERIAL] column. *)
Record table (R : Type) : Type := Table {
  rows : list R;
  next_id : Z
}.
Arguments Table {R} rows next_id.
Arguments rows {R} t.
Arguments next_id {R} t.

Definition empty_table {R : Type} : table R := Table [] 1.

(** The catalog maps a table name to its definition.  Rows are kept for
    the two tables the script writes. *)
Record database : Type := Database {
  catalog : gmap string table_def;
  nfl_teams : table team_row;
  nfl_games : table game_row
}.

Definition empty_database : database :=
  Database ∅ empty_table empty_table.

(** *** The four definitions of [create_tables] *)

Definition serial_pk : column := Column "id" TSerial true true NoDefault.
Definition stamp (name : string) : column := Column name TTimestamp false false DefaultNow.
Definition plain (name : string) (ty : sqltype) : column := Column name ty false false NoDefault.
Definition counter (name : string) : column := Column name TInteger false false (DefaultInt 0).

Definition nfl_teams_def : table_def :=
  TableDef
    [ serial_pk;
      Column "team_name" (TVarchar 100) true false NoDefault;
      Column "team_abbr" (TVarchar 10) true true NoDefault;
      plain "conference" (TVarchar 10);
      plain "division" (TVarchar 20);
      stamp "created_at" ]
    [].

Definition nfl_games_def : table_def :=
  TableDef
    [ serial_pk;
      Column "game_id" (TVarchar 50) false true NoDefault;
      plain "season" TInteger;
      plain "week" TInteger;
      plain "game_date" TDate;
      plain "home_team" (TVarchar 10);
      plain "away_team" (TVarchar 10);
      plain "home_score" TInteger;
      plain "away_score" TInteger;
      plain "status" (TVarchar 20);
      stamp "created_at";
      stamp "updated_at" ]
    [].

Definition nfl_players_def : table_def :=
  TableDef
    [ serial_pk;
      Column "player_id" (TVarchar 50) false true NoDefault;
      Column "player_name" (TVarchar 100) true false NoDefault;
      plain "team" (TVarchar 10);
      plain "position" (TVarchar 10);
      plain "jersey_number" TInteger;
      stamp "created_at";
      stamp "updated_at" ]
    [].

Definition nfl_player_stats_def : table_def :=
  TableDef
    [ serial_pk;
      plain "player_id" (TVarchar 50);
      plain "game_id" (TVarchar 50);
      plain "season" TInteger;
      plain "week" TInteger;
      counter "passing_yards";
      counter "passing_tds";
      counter "interceptions";
      counter "rushing_yards";
      counter "rushing_tds";
      counter "receptions";
      counter "receiving_yards";
      counter "receiving_tds";
      stamp "created_at" ]
    [ ForeignKey "player_id" "nfl_players" "player_id";
      ForeignKey "game_id" "nfl_games" "game_id" ].

(** *** Statements *)

(** The three kinds of statement the script sends. *)
Inductive statement : Type :=
| CreateTableIfNotExists (name : string) (def : table_def)
| InsertTeams (vs : list team_values)
| UpsertGames (vs : list game_values).

(** A foreign key can be declared when the table it refers to exists
    and has a unique constraint on the column named. *)
Definition fk_ok (cat : gmap string table_def) (fk : foreign_key) : bool :=
  match cat !! fk_table fk with
  | Some d =>
      existsb (fun c => String.eqb (col_name c) (fk_ref fk) && col_unique c)
              (td_columns d)
  | None => false
  end.

(** A table created anew starts with no rows and a fresh sequence. *)
Definition new_storage (name : string) (db : database) : database :=
  Database (catalog db)
    (if String.eqb name "nfl_teams" then empty_table else nfl_teams db)
    (if String.eqb name "nfl_games" then empty_table else nfl_games db).

(** [CREATE TABLE IF NOT EXISTS name (...)]: nothing happens when the
    name is taken, whatever definition it has. *)
Definition create_table_if_not_exists (name : string) (def : table_def)
    (db : database) : result database :=
  match catalog db !! name with
  | Some _ => Ok db
  | None =>
      if forallb (fk_ok (catalog db)) (td_foreign_keys def)
      then
        let db' := new_storage name db in
        Ok (Database (<[name := def]> (catalog db')) (nfl_teams db') (nfl_games db'))
      else Raise (DatabaseError (InvalidForeignKey name))
  end.

(** The row store is typed by the script's own definitions: a statement
    on a table that is missing, or that exists under another
    definition, ends in an error. *)
Definition table_ready (name : string) (def : table_def) (db : database)
  : option pg_error :=
  match catalog db !! name with
  | None => Some (UndefinedTable name)
  | Some d => if bool_decide (d = def) then None else Some (ForeignDefinition name)
  end.

Definition new_team (id now : Z) (v : team_values) : team_row :=
  TeamRow id (tv_team_name v) (tv_team_abbr v) (tv_conference v) (tv_division v) now.

(** [INSERT INTO nfl_teams ... ON CONFLICT (team_abbr) DO NOTHING], one
    proposed tuple after the other.  The sequence is drawn for every
    tuple, kept or not.  Returns the sequence reached and, unless the
    statement failed, the rows and the number of rows inserted. *)
Fixpoint insert_teams (now : Z) (vs : list team_values)
    (rs : list team_row) (seq count : Z) : Z * result (list team_row * Z) :=
  match vs with
  | [] => (seq, Ok (rs, count))
  | v :: vs' =>
      if is_null (tv_team_name v) || is_null (tv_team_abbr v)
      then (seq + 1, Raise (DatabaseError NotNullViolation))
      else if existsb (fun r => sql_eq (t_team_abbr r) (tv_team_abbr v)) rs
      then insert_teams now vs' rs (seq + 1) count
      else if existsb (fun r => t_id r =? seq) rs
      then (seq + 1, Raise (DatabaseError UniqueViolation))
      else insert_teams now vs' (rs ++ [new_team seq now v]) (seq + 1) (count + 1)
  end.

Definition new_game (id now : Z) (v : game_values) : game_row :=
  GameRow id (gv_game_id v) (gv_season v) (gv_week v) (gv_game_date v)
    (gv_home_team v) (gv_away_team v) (gv_home_score v) (gv_away_score v)
    (gv_status v) now now.

(** [DO UPDATE SET home_score = EXCLUDED.home_score, away_score =
    EXCLUDED.away_score, status = EXCLUDED.status, updated_at =
    CURRENT_TIMESTAMP]. *)
Definition do_update (now : Z) (v : game_values) (r : game_row) : game_row :=
  GameRow (g_id r) (g_game_id r) (g_season r) (g_week r) (g_game_date r)
    (g_home_team r) (g_away_team r) (gv_home_score v) (gv_away_score v)
    (gv_status v) (g_created_at r) now.

Definition conflicts (v : game_values) (r : game_row) : bool :=
  sql_eq (g_game_id r) (gv_game_id v).

(** [INSERT INTO nfl_games ... ON CONFLICT (game_id) DO UPDATE ...].
    [touched] are the keys this statement has already inserted or
    updated: a second tuple for one of them is refused by the server. *)
Fixpoint upsert_games (now : Z) (vs : list game_values)
    (rs : list game_row) (seq : Z) (touched : list sqlval) (count : Z)
  : Z * result (list game_row * Z) :=
  match vs with
  | [] => (seq, Ok (rs, count))
  | v :: vs' =>
      if existsb (conflicts v) rs
      then
        if existsb (fun k => sql_eq k (gv_game_id v)) touched
        then (seq + 1, Raise (DatabaseError CardinalityViolation))
        else upsert_games now vs'
               (map (fun r => if conflicts v r then do_update now v r else r) rs)
               (seq + 1) (gv_game_id v :: touched) (count + 1)
      else if existsb (fun r => g_id r =? seq) rs
      then (seq + 1, Raise (DatabaseError UniqueViolation))
      else upsert_games now vs' (rs ++ [new_game seq now v])
             (seq + 1) (gv_game_id v :: touched) (count + 1)
  end.

(** One statement against the working state of a transaction begun at
    [now].  The state returned with an error keeps only what a
    rollback does not undo, the sequences. *)
Definition run_statement (now : Z) (s : statement) (db : database)
  : database * result Z :=
  match s with
  | CreateTableIfNotExists name def =>
      match create_table_if_not_exists name def db with
      | Ok db' => (db', Ok (-1))
      | Raise e => (db, Raise e)
      end
  | InsertTeams vs =>
      match table_ready "nfl_teams" nfl_teams_def db with
      | Some e => (db, Raise (DatabaseError e))
      | None =>
          let t := nfl_teams db in
          match insert_teams now vs (rows t) (next_id t) 0 with
          | (seq, Ok (rs, n)) => (Database (catalog db) (Table rs seq) (nfl_games db), Ok n)
          | (seq, Raise e) => (Database (catalog db) (Table (rows t) seq) (nfl_games db), Raise e)
          end
      end
  | UpsertGames vs =>
      match table_ready "nfl_games" nfl_games_def db with
      | Some e => (db, Raise (DatabaseError e))
      | None =>
          let t := nfl_games db in
          match upsert_games now vs (rows t) (next_id t) [] 0 with
          | (seq, Ok (rs, n)) => (Database (catalog db) (nfl_teams db) (Table rs seq), Ok n)
          | (seq, Raise e) => (Database (catalog db) (nfl_teams db) (Table (rows t) seq), Raise e)
          end
      end
  end.

(** What is left of a transaction that is not committed: the catalog
    and the rows as before, the sequences of existing tables as far as
    the transaction drew from them. *)
Definition rolled_back (old cur : database) : database :=
  Database (catalog old)
    (Table (rows (nfl_teams old))
       (if bool_decide (is_Some (catalog old !! "nfl_teams"))
        then next_id (nfl_teams cur) else next_id (nfl_teams old)))
    (Table (rows (nfl_games old))
       (if bool_decide (is_Some (catalog old !! "nfl_games"))
        then next_id (nfl_games cur) else next_id (nfl_games old))).

End Pg.
Import Pg.

(** ** The outside world *)

(** What [requests.get] yields: an exception (no connection, bad
    address, ...) or a response, of which the script reads the status
    code and the decoded JSON body ([response.json()] raises when the body
    is not JSON). *)
Inductive http_result : Type :=
| HttpFailed (e : exn)
| HttpResponse (status_code : Z) (json : result pyval).

(** Everything the script takes from its surroundings.
    - [getenv_DATABASE_URL]: [os.getenv('DATABASE_URL')];
    - [connect_error dsn]: the error of [psycopg2.connect(dsn)], if any;
    - [http_get n url]: the outcome of the [n]-th request of the run;
    - [pg_input_other]: the driver's adaptation and the server's input
      conversion of a Python value to a column type, where [pg_input]
      below does not fix it; [None] is a refusal;
    - [int_other]: see [Py.int_of_str];
    - [exn_text]: the interpreter's or library's [str(e)]. *)
Record platform : Type := Platform {
  getenv_DATABASE_URL : option string;
  connect_error : string -> option pg_error;
  http_get : nat -> string -> http_result;
  pg_input_other : sqltype -> pyval -> option sqlval;
  int_other : string -> option Z;
  exn_text : exn -> string
}.

(** [str(e)]: the message given to [ValueError(...)], otherwise the
    platform's text. *)
Definition str_exn (P : platform) (e : exn) : string :=
  match e with
  | ValueError msg => msg
  | _ => exn_text P e
  end.

Inductive event : Type :=
| EvPrint (line : string)
| EvHttpGet (url : string)
| EvConnect (dsn : string)
| EvExecute (s : statement)
| EvCommit
| EvClose.

(** The state the script acts on: the committed database, the open
    connection if any (the working state of its transaction and the
    transaction's timestamp), the server's clock, and what has been
    printed, requested and sent so far, oldest first. *)
Record world : Type := World {
  w_db : database;
  w_conn : option (database * Z);
  w_clock : Z;
  w_trace : list event
}.

Definition M (A : Type) : Type := world -> world * result A.

Definition ret {A} (a : A) : M A := fun w => (w, Ok a).

Definition raise {A} (e : exn) : M A := fun w => (w, Raise e).

Definition bind {A B} (m : M A) (k : A -> M B) : M B :=
  fun w =>
    match m w with
    | (w', Ok a) => k a w'
    | (w', Raise e) => (w', Raise e)
    end.

Notation "x <- m ;; k" := (bind m (fun x => k))
  (at level 100, m at next level, right associativity).
Notation "m ;;; k" := (bind m (fun _ => k))
  (at level 100, right associativity).

(** [try: m except Exception as e: h(e)]. *)
Definition try_except {A} (m : M A) (h : exn -> M A) : M A :=
  fun w =>
    match m w with
    | (w', Ok a) => (w', Ok a)
    | (w', Raise e) => h e w'
    end.

Definition lift {A} (r : result A) : M A := fun w => (w, r).

(** [for x in xs: f(x)]. *)
Fixpoint for_each {A} (xs : list A) (f : A -> M unit) : M unit :=
  match xs with
  | [] => ret tt
  | x :: xs' => f x ;;; for_each xs' f
  end.

Definition emit (e : event) : M unit :=
  fun w => (World (w_db w) (w_conn w) (w_clock w) (w_trace w ++ [e]), Ok tt).

Definition print (line : string) : M unit := emit (EvPrint line).

Definition requests_of (t : list event) : list string :=
  omap (fun e => match e with EvHttpGet u => Some u | _ => None end) t.

(** [requests.get(url)] and the two things read off the response. *)
Definition requests_get (P : platform) (url : string) : M (Z * result pyval) :=
  fun w =>
    let n := length (requests_of (w_trace w)) in
    let w' := World (w_db w) (w_conn w) (w_clock w) (w_trace w ++ [EvHttpGet url]) in
    match http_get P n url with
    | HttpFailed e => (w', Raise e)
    | HttpResponse code body => (w', Ok (code, body))
    end.

(** *** The database driver *)

Inductive connection : Type := Connection (dsn : string).

(** [psycopg2.connect(dsn)]: the transaction of the new connection
    works on a copy of the committed state and is stamped with the
    clock, which then moves on. *)
Definition psycopg2_connect (P : platform) (dsn : string) : M connection :=
  fun w =>
    let t := w_trace w ++ [EvConnect dsn] in
    match connect_error P dsn with
    | Some e => (World (w_db w) (w_conn w) (w_clock w) t, Raise (DatabaseError e))
    | None =>
        (World (w_db w) (Some (w_db w, w_clock w)) (w_clock w + 1) t,
         Ok (Connection dsn))
    end.

(** An error inside a transaction: the connection is lost to the
    script before any commit, so the work is rolled back. *)
Definition abort {A} (e : exn) : M A :=
  fun w =>
    match w_conn w with
    | Some (work, _) =>
        (World (rolled_back (w_db w) work) None (w_clock w) (w_trace w), Raise e)
    | None => (w, Raise e)
    end.

(** [cur.execute(s)]; the result is [cur.rowcount]. *)
Definition execute (s : statement) : M Z :=
  fun w =>
    match w_conn w with
    | None => (w, Raise (DatabaseError ConnectionFailed))
    | Some (work, now) =>
        let t := w_trace w ++ [EvExecute s] in
        match run_statement now s work with
        | (work', Ok n) => (World (w_db w) (Some (work', now)) (w_clock w) t, Ok n)
        | (work', Raise e) =>
            abort e (World (w_db w) (Some (work', now)) (w_clock w) t)
        end
    end.

(** [conn.commit()]. *)
Definition commit (c : connection) : M unit :=
  fun w =>
    match w_conn w with
    | None => (w, Raise (DatabaseError ConnectionFailed))
    | Some (work, now) =>
        (World work (Some (work, now)) (w_clock w) (w_trace w ++ [EvCommit]), Ok tt)
    end.

(** [conn.close()]: work not committed is dropped. *)
Definition close (c : connection) : M unit :=
  fun w =>
    let db := match w_conn w with
              | Some (work, _) => rolled_back (w_db w) work
              | None => w_db w
              end in
    (World db None (w_clock w) (w_trace w ++ [EvClose]), Ok tt).

(** [psycopg2.extras._paginate]: pages of [page_size] items, the last
    one shorter; [room] is what the page being filled still takes. *)
Fixpoint paginate_from {A} (page_size room : nat) (page : list A) (seq : list A)
  : list (list A) :=
  match seq with
  | [] => match page with [] => [] | _ => [rev page] end
  | x :: seq' =>
      match room with
      | S (S r) => paginate_from page_size (S r) (x :: page) seq'
      | _ => rev (x :: page) :: paginate_from page_size page_size [] seq'
      end
  end.

Definition paginate {A} (page_size : nat) (seq : list A) : list (list A) :=
  paginate_from page_size page_size [] seq.

Definition printable (c : ascii) : bool :=
  let n := nat_of_ascii c in ((32 <=? n) && (n <=? 126))%nat.

Definition int4 (z : Z) : bool := (- 2147483648 <=? z) && (z <=? 2147483647).

(** A Python value as the value of a column.  [None] is [NULL]; an
    integer in range goes into an [INTEGER] column and a printable
    ASCII string that fits into a [VARCHAR(n)] one as they are; an
    integer out of range is refused.  The rest is the platform's. *)
Definition pg_input (P : platform) (ty : sqltype) (v : pyval) : option sqlval :=
  match v, ty with
  | JNull, _ => Some VNull
  | JInt z, TInteger => if int4 z then Some (VInt z) else None
  | JStr s, TVarchar n =>
      if forallb printable (list_ascii_of_string s) && (String.length s <=? n)%nat
      then Some (VText s)
      else pg_input_other P ty v
  | _, _ => pg_input_other P ty v
  end.

(** All items of a page, or [None] when one is refused. *)
Fixpoint all_some {A B} (f : A -> option B) (l : list A) : option (list B) :=
  match l with
  | [] => Some []
  | x :: l' =>
      match f x, all_some f l' with
      | Some y, Some ys => Some (y :: ys)
      | _, _ => None
      end
  end.

(** [execute_values(cur, sql, argslist)] with the default page size:
    one statement for each page of 100 tuples.  [sql] is given by the
    statement [mk] builds from the converted tuples of the page.  The
    result is [cur.rowcount] afterwards. *)
Fixpoint execute_pages {T V} (input : T -> option V) (mk : list V -> statement)
    (pages : list (list T)) (rowcount : Z) : M Z :=
  match pages with
  | [] => ret rowcount
  | page :: pages' =>
      match all_some input page with
      | None => abort (DatabaseError DataError)
      | Some vs => n <- execute (mk vs) ;; execute_pages input mk pages' n
      end
  end.

Definition execute_values {T V} (input : T -> option V) (mk : list V -> statement)
    (argslist : list T) : M Z :=
  execute_pages input mk (paginate 100 argslist) (-1).

(** ** The script *)

Definition nl : string := String (ascii_of_nat 10) EmptyString.

Section Script.

Variable P : platform.

(** *** [get_db_connection] *)

Definition get_db_connection : M connection :=
  let database_url := getenv_DATABASE_URL P in
  match database_url with
  | Some dsn =>
      if negb (String.eqb dsn "") then psycopg2_connect P dsn
      else raise (ValueError "DATABASE_URL environment variable not set")
  | None => raise (ValueError "DATABASE_URL environment variable not set")
  end.

(** *** [create_tables] *)

Definition create_tables : M unit :=
  conn <- get_db_connection ;;
  execute (CreateTableIfNotExists "nfl_teams" nfl_teams_def) ;;;
  execute (CreateTableIfNotExists "nfl_games" nfl_games_def) ;;;
  execute (CreateTableIfNotExists "nfl_players" nfl_players_def) ;;;
  execute (CreateTableIfNotExists "nfl_player_stats" nfl_player_stats_def) ;;;
  commit conn ;;;
  close conn ;;;
  print "Tables created successfully".

(** *** [populate_teams] *)

Definition teams : list (string * string * string * string) :=
  [ ("Arizona Cardinals", "ARI", "NFC", "West");
    ("Atlanta Falcons", "ATL", "NFC", "South");
    ("Baltimore Ravens", "BAL", "AFC", "North");
    ("Buffalo Bills", "BUF", "AFC", "East");
    ("Carolina Panthers", "CAR", "NFC", "South");
    ("Chicago Bears", "CHI", "NFC", "North");
    ("Cincinnati Bengals", "CIN", "AFC", "North");
    ("Cleveland Browns", "CLE", "AFC", "North");
    ("Dallas Cowboys", "DAL", "NFC", "East");
    ("Denver Broncos", "DEN", "AFC", "West");
    ("Detroit Lions", "DET", "NFC", "North");
    ("Green Bay Packers", "GB", "NFC", "North");
    ("Houston Texans", "HOU", "AFC", "South");
    ("Indianapolis Colts", "IND", "AFC", "South");
    ("Jacksonville Jaguars", "JAX", "AFC", "South");
    ("Kansas City Chiefs", "KC", "AFC", "West");
    ("Las Vegas Raiders", "LV", "AFC", "West");
    ("Los Angeles Chargers", "LAC", "AFC", "West");
    ("Los Angeles Rams", "LAR", "NFC", "West");
    ("Miami Dolphins", "MIA", "AFC", "East");
    ("Minnesota Vikings", "MIN", "NFC", "North");
    ("New England Patriots", "NE", "AFC", "East");
    ("New Orleans Saints", "NO", "NFC", "South");
    ("New York Giants", "NYG", "NFC", "East");
    ("New York Jets", "NYJ", "AFC", "East");
    ("Philadelphia Eagles", "PHI", "NFC", "East");
    ("Pittsburgh Steelers", "PIT", "AFC", "North");
    ("San Francisco 49ers", "SF", "NFC", "West");
    ("Seattle Seahawks", "SEA", "NFC", "West");
    ("Tampa Bay Buccaneers", "TB", "NFC", "South");
    ("Tennessee Titans", "TEN", "AFC", "South");
    ("Washington Commanders", "WAS", "NFC", "East") ].

(** The tuple of a team as the values of [(team_name, team_abbr,
    conference, division)]. *)
Definition team_input (t : string * string * string * string) : option team_values :=
  let '(team_name, team_abbr, conference, division) := t in
  match pg_input P (TVarchar 100) (JStr team_name),
        pg_input P (TVarchar 10) (JStr team_abbr),
        pg_input P (TVarchar 10) (JStr conference),
        pg_input P (TVarchar 20) (JStr division) with
  | Some a, Some b, Some c, Some d => Some (TeamValues a b c d)
  | _, _, _, _ => None
  end.

Definition populate_teams : M unit :=
  conn <- get_db_connection ;;
  rowcount <- execute_values team_input InsertTeams teams ;;
  commit conn ;;;
  print ("Inserted " +:+ str_int rowcount +:+ " teams") ;;;
  close conn.

(** *** [populate_games] *)

Definition scoreboard : string :=
  "https://site.api.espn.com/apis/site/v2/sports/football/nfl/scoreboard".

(** [if week:] holds for an integer other than 0. *)
Definition week_given (week : option Z) : option Z :=
  match week with
  | Some k => if k =? 0 then None else Some k
  | None => None
  end.

Definition scoreboard_url (season : Z) (week : option Z) : string :=
  match week_given week with
  | Some k =>
      scoreboard +:+ "?dates=" +:+ str_int season +:+ "&seasontype=2&week=" +:+ str_int k
  | None => scoreboard +:+ "?dates=" +:+ str_int season
  end.

(** The four variables the loop over the competitors assigns. *)
Record sides : Type := Sides {
  home_team : pyval;
  away_team : pyval;
  home_score : pyval;
  away_score : pyval
}.

Definition no_sides : sides := Sides JNull JNull JNull JNull.

(** The body of [for competitor in competitors]. *)
Definition competitor_step (s : sides) (competitor : pyval) : result sides :=
  home_away <-- get competitor "homeAway" JNull ;;
  if eq_str home_away "home" then
    team <-- get competitor "team" (JObj []) ;;
    abbr <-- get team "abbreviation" JNull ;;
    score <-- get competitor "score" (JInt 0) ;;
    n <-- int (int_other P) score ;;
    Ok (Sides abbr (away_team s) (JInt n) (away_score s))
  else
    team <-- get competitor "team" (JObj []) ;;
    abbr <-- get team "abbreviation" JNull ;;
    score <-- get competitor "score" (JInt 0) ;;
    n <-- int (int_other P) score ;;
    Ok (Sides (home_team s) abbr (home_score s) (JInt n)).

(** [competition.get('status', {}).get('type', {}).get('name', 'scheduled')]. *)
Definition competition_status (competition : pyval) : result pyval :=
  st <-- get competition "status" (JObj []) ;;
  ty <-- get st "type" (JObj []) ;;
  get ty "name" (JStr "scheduled").

(** The tuple appended to [games]. *)
Record game : Type := Game {
  game_id : pyval;
  game_season : pyval;
  game_week : pyval;
  game_date : pyval;
  game_home_team : pyval;
  game_away_team : pyval;
  game_home_score : pyval;
  game_away_score : pyval;
  game_status : pyval
}.

(** The body of [for event in data.get('events', [])]: [None] is the
    [continue] of an event without competitions. *)
Definition parse_event (season : Z) (week : option Z) (event : pyval)
  : result (option game) :=
  game_id <-- get event "id" JNull ;;
  date <-- get event "date" (JStr "") ;;
  game_date <-- split_T_0 date ;;
  competitions <-- get event "competitions" (JArr []) ;;
  if negb (truthy competitions) then Ok None
  else
    competition <-- item0 competitions ;;
    competitors <-- get competition "competitors" (JArr []) ;;
    cs <-- iter competitors ;;
    s <-- rfold competitor_step cs no_sides ;;
    status <-- competition_status competition ;;
    wk <-- match week_given week with
           | Some k => Ok (JInt k)
           | None =>
               ew <-- get event "week" (JObj []) ;;
               get ew "number" (JInt 1)
           end ;;
    Ok (Some (Game game_id (JInt season) wk (JStr game_date)
                (home_team s) (away_team s) (home_score s) (away_score s) status)).

Definition append_game (games : list game) (event : pyval) (season : Z)
    (week : option Z) : result (list game) :=
  g <-- parse_event season week event ;;
  Ok (match g with Some t => games ++ [t] | None => games end).

(** From [data] to the list [games]. *)
Definition parse_games (season : Z) (week : option Z) (data : pyval)
  : result (list game) :=
  events <-- get data "events" (JArr []) ;;
  es <-- iter events ;;
  rfold (fun games event => append_game games event season week) es [].

(** The tuple of a game as the values of [(game_id, season, week,
    game_date, home_team, away_team, home_score, away_score, status)]. *)
Definition game_input (g : game) : option game_values :=
  match pg_input P (TVarchar 50) (game_id g),
        pg_input P TInteger (game_season g),
        pg_input P TInteger (game_week g),
        pg_input P TDate (game_date g),
        pg_input P (TVarchar 10) (game_home_team g) with
  | Some a, Some b, Some c, Some d, Some e =>
      match pg_input P (TVarchar 10) (game_away_team g),
            pg_input P TInteger (game_home_score g),
            pg_input P TInteger (game_away_score g),
            pg_input P (TVarchar 20) (game_status g) with
      | Some f, Some h, Some i, Some j => Some (GameValues a b c d e f h i j)
      | _, _, _, _ => None
      end
  | _, _, _, _, _ => None
  end.

(** What stands between [try:] and [except]. *)
Definition populate_games_body (season : Z) (week : option Z) : M unit :=
  let url := scoreboard_url season week in
  response <- requests_get P url ;;
  let '(status_code, json) := response in
  if negb (status_code =? 200) then
    print ("Failed to fetch games: " +:+ str_int status_code)
  else
    data <- lift json ;;
    games <- lift (parse_games season week data) ;;
    match games with
    | [] => ret tt
    | _ =>
        conn <- get_db_connection ;;
        execute_values game_input UpsertGames games ;;;
        commit conn ;;;
        print ("Inserted/updated " +:+ str_int (Z.of_nat (length games)) +:+ " games") ;;;
        close conn
    end.

Definition populate_games (season : Z) (week : option Z) : M unit :=
  try_except (populate_games_body season week)
    (fun e => print ("Error populating games: " +:+ str_exn P e)).

(** *** [main] *)

(** [range(lo, hi)]. *)
Definition range (lo hi : Z) : list Z :=
  map (fun i => lo + Z.of_nat i) (seq 0 (Z.to_nat (hi - lo))).

Definition current_week : Z := 11.

Definition fetch_week (week : Z) : M unit :=
  print ("   Fetching week " +:+ str_int week +:+ "...") ;;;
  populate_games 2025 (Some week).

Definition main : M unit :=
  print "Starting NFL data population..." ;;;
  print (nl +:+ "1. Creating tables...") ;;;
  create_tables ;;;
  print (nl +:+ "2. Populating teams...") ;;;
  populate_teams ;;;
  print (nl +:+ "3. Populating games for 2025 season...") ;;;
  for_each (range 1 (current_week + 1)) fetch_week ;;;
  print (nl +:+ "NFL data population completed!").

End Script.

(** ** Sample surroundings

    A platform whose server accepts every address and takes a date
    text as it is, whose HTTP server answers every request with the
    same response, and a world with an empty database. *)

Definition sample_platform (url : option string) (answer : http_result) : platform :=
  Platform url (fun _ => None) (fun _ _ => answer)
    (fun ty v => match ty, v with TDate, JStr s => Some (VDate s) | _, _ => None end)
    (fun _ => None)
    (fun _ => "error").

Definition fresh_world : world := World empty_database None 0 [].

Definition competitor (home_away abbr : string) (score : option string) : pyval :=
  JObj ([("homeAway", JStr home_away); ("team", JObj [("abbreviation", JStr abbr)])]
        ++ match score with Some sc => [("score", JStr sc)] | None => [] end).

(** Two events: a final AAA 10 - BBB 7, and a game to come whose
    competitors carry no score and whose competition has no status. *)
Definition sample_scoreboard : pyval :=
  JObj [("events", JArr [
    JObj [("id", JStr "401"); ("date", JStr "2025-09-07T17:00Z");
          ("competitions", JArr [
             JObj [("competitors", JArr [competitor "home" "AAA" (Some "10");
                                         competitor "away" "BBB" (Some "7")]);
                   ("status", JObj [("type", JObj [("name", JStr "final")])])]])];
    JObj [("id", JStr "402"); ("date", JStr "2025-09-08T00:20Z");
          ("competitions", JArr [
             JObj [("competitors", JArr [competitor "home" "CCC" None;
                                         competitor "away" "DDD" None])]])]])].

(** ** Notions used in the statements *)

(** A computation is [silent] when all it adds to the trace is free of
    HTTP requests. *)

Definition silent {A} (m : M A) : Prop :=
  forall w, exists t,
    w_trace (fst (m w)) = w_trace w ++ t /\ requests_of t = [].

(** What one turn of the driver's loop adds to the trace. *)
Definition week_trace (week : Z) (tail : list event) : list event :=
  EvPrint ("   Fetching week " +:+ str_int week +:+ "...")
  :: EvHttpGet (scoreboard_url 2025 (Some week)) :: tail.

Definition week_url (week : Z) : string := scoreboard_url 2025 (Some week).

(** Two states of the database with the same catalog and the same
    rows; the sequences may differ. *)
Definition same_data (d d' : database) : Prop :=
  catalog d = catalog d'
  /\ rows (nfl_teams d) = rows (nfl_teams d')
  /\ rows (nfl_games d) = rows (nfl_games d').

(** An event the loop of [populate_games] passes over: a dict whose
    date, if any, is a string and whose competitions are missing or
    false (an empty list, [None]). *)
Definition without_competitions (event : pyval) : bool :=
  match event with
  | JObj d =>
      match dict_lookup "date" d with
      | None | Some (JStr _) => true
      | Some _ => false
      end
      && match dict_lookup "competitions" d with
         | None => true
         | Some v => negb (truthy v)
         end
  | _ => false
  end.

(** The 32 tuples of [teams] as the server stores them. *)
Definition seed_values : list team_values :=
  map (fun t : string * string * string * string =>
         let '(team_name, team_abbr, conference, division) := t in
         TeamValues (VText team_name) (VText team_abbr) (VText conference) (VText division))
      teams.

(** What [create_tables] and [populate_teams] add to the trace when
    they return normally. *)
Definition create_tables_trace (dsn : string) : list event :=
  [ EvConnect dsn;
    EvExecute (CreateTableIfNotExists "nfl_teams" nfl_teams_def);
    EvExecute (CreateTableIfNotExists "nfl_games" nfl_games_def);
    EvExecute (CreateTableIfNotExists "nfl_players" nfl_players_def);
    EvExecute (CreateTableIfNotExists "nfl_player_stats" nfl_player_stats_def);
    EvCommit;
    EvClose;
    EvPrint "Tables created successfully" ].

Definition populate_teams_trace (dsn : string) (rowcount : Z) : list event :=
  [ EvConnect dsn;
    EvExecute (InsertTeams seed_values);
    EvCommit;
    EvPrint ("Inserted " +:+ str_int rowcount +:+ " teams");
    EvClose ].

(** The columns of a game the upsert never assigns on conflict. *)
Definition same_fixed_columns (r r' : game_row) : Prop :=
  g_id r' = g_id r
  /\ g_game_id r' = g_game_id r
  /\ g_season r' = g_season r
  /\ g_week r' = g_week r
  /\ g_game_date r' = g_game_date r
  /\ g_home_team r' = g_home_team r
  /\ g_away_team r' = g_away_team r
  /\ g_created_at r' = g_created_at r.

(** No two tuples of a batch carry the same game identifier. *)
Fixpoint distinct_ids (vs : list game_values) : bool :=
  match vs with
  | [] => true
  | v :: vs' =>
      negb (existsb (fun v' => sql_eq (gv_game_id v) (gv_game_id v')) vs')
      && distinct_ids vs'
  end.

(** The sequence of a table is ahead of the identifiers in use. *)
Definition games_sequence_ahead (t : table game_row) : bool :=
  forallb (fun r => g_id r <? next_id t) (rows t).

Definition teams_sequence_ahead (t : table team_row) : bool :=
  forallb (fun r => t_id r <? next_id t) (rows t).

(** Every row of [rs] is found at the same place in [rs'], with the
    same fixed columns. *)
Definition games_kept (rs rs' : list game_row) : Prop :=
  forall i r, rs !! i = Some r ->
    exists r', rs' !! i = Some r' /\ same_fixed_columns r r'.

(** The second game of [sample_scoreboard] once played, as a later
    response reports it: a final score, and a date and sides that
    differ from the first report. *)
Definition refetched_scoreboard : pyval :=
  JObj [("events", JArr [
    JObj [("id", JStr "402"); ("date", JStr "2025-09-09T01:15Z");
          ("competitions", JArr [
             JObj [("competitors", JArr [competitor "home" "DDD" (Some "21");
                                         competitor "away" "CCC" (Some "17")]);
                   ("status", JObj [("type", JObj [("name", JStr "final")])])]])]])].

Definition sample_dsn : string := "postgresql://neon/nfl".

(** The world after the tables were created and [sample_scoreboard]
    was fetched for week 1. *)
Definition seeded_world : world :=
  let P := sample_platform (Some sample_dsn) (HttpResponse 200 (Ok sample_scoreboard)) in
  fst (populate_games P 2025 (Some 1) (fst (create_tables P fresh_world))).

(** The rows [INSERT INTO nfl_teams] makes of tuples that are all new:
    consecutive identifiers from [seq] on. *)
Fixpoint numbered (now seq : Z) (vs : list team_values) : list team_row :=
  match vs with
  | [] => []
  | v :: vs' => new_team seq now v :: numbered now (seq + 1) vs'
  end.

Definition has_abbr (abbr : sqlval) (rs : list team_row) : bool :=
  existsb (fun r => sql_eq (t_team_abbr r) abbr) rs.

Definition named (v : team_values) : bool :=
  negb (is_null (tv_team_name v) || is_null (tv_team_abbr v)).

(** Tuples with a name and an abbreviation, the abbreviation neither in
    the table nor twice in the batch. *)
Fixpoint new_batch (rs : list team_row) (vs : list team_values) : bool :=
  match vs with
  | [] => true
  | v :: vs' =>
      named v
      && negb (has_abbr (tv_team_abbr v) rs)
      && negb (existsb (fun v' => sql_eq (tv_team_abbr v) (tv_team_abbr v')) vs')
      && new_batch rs vs'
  end.

(** Tuples whose abbreviations are all in the table. *)
Definition all_present (rs : list team_row) (vs : list team_values) : bool :=
  forallb (fun v => named v && has_abbr (tv_team_abbr v) rs) vs.

(** [m], [n] times in a row. *)
Fixpoint repeat_run (n : nat) (m : M unit) : M unit :=
  match n with
  | O => ret tt
  | S n' => m ;;; repeat_run n' m
  end.

(** The catalog with the four tables of the script. *)
Definition with_script_tables (cat : gmap string table_def) : gmap string table_def :=
  <["nfl_player_stats" := nfl_player_stats_def]>
    (<["nfl_players" := nfl_players_def]>
       (<["nfl_games" := nfl_games_def]>
          (<["nfl_teams" := nfl_teams_def]> cat))).

(** A competitor that says it plays at home. *)
Definition is_home (competitor : pyval) : bool :=
  match competitor with
  | JObj d =>
      match dict_lookup "homeAway" d with
      | Some v => eq_str v "home"
      | None => false
      end
  | _ => false
  end.

(** What both branches of the loop read off a competitor: the
    abbreviation of its team and its score. *)
Definition competitor_info (P : platform) (competitor : pyval) : result (pyval * pyval) :=
  team <-- get competitor "team" (JObj []) ;;
  abbr <-- get team "abbreviation" JNull ;;
  score <-- get competitor "score" (JInt 0) ;;
  n <-- int (int_other P) score ;;
  Ok (abbr, JInt n).

(** The last competitor of the list on the given side. *)
Fixpoint last_side (home : bool) (cs : list pyval) : option pyval :=
  match cs with
  | [] => None
  | c :: cs' =>
      match last_side home cs' with
      | Some c' => Some c'
      | None => if Bool.eqb (is_home c) home then Some c else None
      end
  end.

(** The side of [s] that is the home side or the away side. *)
Definition side (home : bool) (s : sides) : pyval * pyval :=
  if home then (home_team s, home_score s) else (away_team s, away_score s).

Definition set_side (home : bool) (info : pyval * pyval) (s : sides) : sides :=
  if home then Sides (fst info) (away_team s) (snd info) (away_score s)
  else Sides (home_team s) (fst info) (home_score s) (snd info).

(** The value a dict gives for a key, [None] when it has none. *)
Definition dict_get (k : string) (d : list (string * pyval)) : pyval :=
  match dict_lookup k d with
  | Some v => v
  | None => JNull
  end.

(** The path [status.type.name] stops short of a name: there is no
    [status], or it is a dict without [type], or that is a dict without
    [name]. *)
Definition status_missing (competition : list (string * pyval)) : bool :=
  match dict_lookup "status" competition with
  | None => true
  | Some (JObj st) =>
      match dict_lookup "type" st with
      | None => true
      | Some (JObj ty) =>
          match dict_lookup "name" ty with
          | None => true
          | Some _ => false
          end
      | Some _ => false
      end
  | Some _ => false
  end.

(** The two tuples [sample_scoreboard] is parsed to for week 1 of 2025,
    and the two rows a first upsert at time [now] makes of them. *)
Definition sample_games : list game :=
  [ Game (JStr "401") (JInt 2025) (JInt 1) (JStr "2025-09-07")
      (JStr "AAA") (JStr "BBB") (JInt 10) (JInt 7) (JStr "final");
    Game (JStr "402") (JInt 2025) (JInt 1) (JStr "2025-09-08")
      (JStr "CCC") (JStr "DDD") (JInt 0) (JInt 0) (JStr "scheduled") ].

Definition sample_rows (now : Z) : list game_row :=
  [ GameRow 1 (VText "401") (VInt 2025) (VInt 1) (VDate "2025-09-07")
      (VText "AAA") (VText "BBB") (VInt 10) (VInt 7) (VText "final") now now;
    GameRow 2 (VText "402") (VInt 2025) (VInt 1) (VDate "2025-09-08")
      (VText "CCC") (VText "DDD") (VInt 0) (VInt 0) (VText "scheduled") now now ].

(** ** Notions used for the invariants of the three writers *)

(** The committed database satisfies [Q], and so does the working state
    of the open transaction, which [R] relates to the committed one. *)
Definition winv (Q : database -> Prop) (R : database -> database -> Prop)
    (w : world) : Prop :=
  Q (w_db w)
  /\ forall work now, w_conn w = Some (work, now) -> Q work /\ R (w_db w) work.

(** A computation keeps a property of the world. *)
Definition keeps {A} (I : world -> Prop) (m : M A) : Prop :=
  forall w, I w -> I (fst (m w)).

Definition is_upsert (s : statement) : Prop :=
  match s with UpsertGames _ => True | _ => False end.

Definition is_insert_teams (s : statement) : Prop :=
  match s with InsertTeams _ => True | _ => False end.

Definition is_create (s : statement) : Prop :=
  match s with CreateTableIfNotExists _ _ => True | _ => False end.

(** A computation that leaves the committed catalog and rows as they
    are, and one that does so at least when it raises. *)
Definition uncommitted {A} (m : M A) : Prop :=
  forall w, same_data (w_db (fst (m w))) (w_db w).

Definition clean_on_error {A} (m : M A) : Prop :=
  forall w w1 e, m w = (w1, Raise e) -> same_data (w_db w1) (w_db w).

(** A catalog with a table [nfl_players] that has no unique
    [player_id], as another program may have left it. *)
Definition foreign_players_world : world :=
  World (Database {["nfl_players" := TableDef [serial_pk; plain "player_id" (TVarchar 50)] []]}
           empty_table empty_table)
        None 0 [].

(** The loop of [populate_games] gets through the event. *)
Definition parses (P : platform) (season : Z) (week : option Z) (event : pyval) : bool :=
  match parse_event P season week event with
  | Ok _ => true
  | Raise _ => false
  end.

(** The first event of [sample_scoreboard]. *)
Definition sample_final_event : pyval :=
  JObj [("id", JStr "401"); ("date", JStr "2025-09-07T17:00Z");
        ("competitions", JArr [
           JObj [("competitors", JArr [competitor "home" "AAA" (Some "10");
                                       competitor "away" "BBB" (Some "7")]);
                 ("status", JObj [("type", JObj [("name", JStr "final")])])]])].

(** The rows [INSERT INTO nfl_games] makes of tuples that meet no
    conflict: consecutive identifiers from [seq] on. *)
Fixpoint numbered_games (now seq : Z) (vs : list game_values) : list game_row :=
  match vs with
  | [] => []
  | v :: vs' => new_game seq now v :: numbered_games now (seq + 1) vs'
  end.

(** An event like the first of [sample_scoreboard], without [id]. *)
Definition anonymous_scoreboard : pyval :=
  JObj [("events", JArr [
    JObj [("date", JStr "2025-09-07T17:00Z");
          ("competitions", JArr [
             JObj [("competitors", JArr [competitor "home" "AAA" (Some "10");
                                         competitor "away" "BBB" (Some "7")]);
                   ("status", JObj [("type", JObj [("name", JStr "final")])])]])]])].

(** No key of the list equals, as a unique index sees it, a later one. *)
Fixpoint unique_keys (ks : list sqlval) : bool :=
  match ks with
  | [] => true
  | k :: ks' => negb (existsb (fun k' => sql_eq k k') ks') && unique_keys ks'
  end.

(** The constraints [UNIQUE (game_id)] and [UNIQUE (team_abbr)]. *)
Definition game_ids_unique (db : database) : bool :=
  unique_keys (map g_game_id (rows (nfl_games db))).

Definition team_abbrs_unique (db : database) : bool :=
  unique_keys (map t_team_abbr (rows (nfl_teams db))).

(** Both sequences are ahead of the identifiers in use. *)
Definition sequences_ahead (db : database) : bool :=
  teams_sequence_ahead (nfl_teams db) && games_sequence_ahead (nfl_games db).

(** From [d] to [d'] no table is lost and the sequence of no table
    that exists goes back. *)
Definition grows (d d' : database) : Prop :=
  (forall name, is_Some (catalog d !! name) -> is_Some (catalog d' !! name))
  /\ (is_Some (catalog d !! "nfl_teams") ->
      next_id (nfl_teams d) <= next_id (nfl_teams d'))
  /\ (is_Some (catalog d !! "nfl_games") ->
      next_id (nfl_games d) <= next_id (nfl_games d')).

Definition any_statement (s : statement) : Prop := True.

(** An event that gives a game: a dict whose competitions are true. *)
Definition has_competitions (event : pyval) : bool :=
  match event with
  | JObj d =>
      truthy (match dict_lookup "competitions" d with Some v => v | None => JArr [] end)
  | _ => false
  end.

(** [event.get('id')]. *)
Definition event_id (event : pyval) : pyval :=
  match event with
  | JObj d => dict_get "id" d
  | _ => JNull
  end.

(** An integer or [None]. *)
Definition int_or_none (v : pyval) : bool :=
  match v with
  | JNull | JInt _ => true
  | _ => false
  end.

(** A text without the letter [T]. *)
Fixpoint no_T (s : string) : bool :=
  match s with
  | EmptyString => true
  | String c s' => negb (Ascii.eqb c "T") && no_T s'
  end.

(** The shape of a tuple of [games]: the season and, if one was given,
    the week of the call; a date text without time part; scores that are
    integers or [None]. *)
Definition well_shaped (season : Z) (week : option Z) (g : game) : Prop :=
  game_season g = JInt season
  /\ (forall k, week_given week = Some k -> game_week g = JInt k)
  /\ (exists d, game_date g = JStr d /\ no_T d = true)
  /\ int_or_none (game_home_score g) = true
  /\ int_or_none (game_away_score g) = true.

(** * Properties *)

(** ** Python values *)

Example int_literal_plain : int_literal "10" = Some 10.
Proof. reflexivity. Qed.
Example int_literal_spaces : int_literal " -1_000 " = Some (-1000).
Proof. reflexivity. Qed.
Example int_literal_bad :
  int_literal "1__0" = None /\ int_literal "7.5" = None /\ int_literal "" = None
  /\ int_literal "- 5" = None /\ int_literal "5_" = None.
Proof. repeat split. Qed.
Example before_T_iso : before_T "2025-09-07T17:00Z" = "2025-09-07"%string.
Proof. reflexivity. Qed.

(** ** Traces *)

Lemma requests_of_app (t1 t2 : list event) :
  requests_of (t1 ++ t2) = requests_of t1 ++ requests_of t2.
Proof. unfold requests_of. apply omap_app. Qed.

Lemma silent_ret {A} (a : A) : silent (ret a).
Proof. intros w. exists []. simpl. now rewrite app_nil_r. Qed.

Lemma silent_raise {A} (e : exn) : silent (@raise A e).
Proof. intros w. exists []. simpl. now rewrite app_nil_r. Qed.

Lemma silent_lift {A} (r : result A) : silent (lift r).
Proof. intros w. exists []. simpl. now rewrite app_nil_r. Qed.

Lemma silent_bind {A B} (m : M A) (k : A -> M B) :
  silent m -> (forall a, silent (k a)) -> silent (bind m k).
Proof.
  intros Hm Hk w. unfold bind.
  destruct (Hm w) as (t1 & E1 & Q1).
  destruct (m w) as [w1 [a | e]]; simpl in E1.
  - destruct (Hk a w1) as (t2 & E2 & Q2).
    exists (t1 ++ t2). split.
    + now rewrite E2, E1, app_assoc.
    + now rewrite requests_of_app, Q1, Q2.
  - now exists t1.
Qed.

Lemma silent_try_except {A} (m : M A) (h : exn -> M A) :
  silent m -> (forall e, silent (h e)) -> silent (try_except m h).
Proof.
  intros Hm Hh w. unfold try_except.
  destruct (Hm w) as (t1 & E1 & Q1).
  destruct (m w) as [w1 [a | e]]; simpl in E1.
  - now exists t1.
  - destruct (Hh e w1) as (t2 & E2 & Q2).
    exists (t1 ++ t2). split.
    + now rewrite E2, E1, app_assoc.
    + now rewrite requests_of_app, Q1, Q2.
Qed.

Lemma silent_emit (e : event) :
  (forall u, e <> EvHttpGet u) -> silent (emit e).
Proof.
  intros He w. exists [e]. split; [reflexivity |].
  destruct e; try reflexivity. now destruct (He url).
Qed.

Lemma silent_print (line : string) : silent (print line).
Proof. apply silent_emit. discriminate. Qed.

Lemma silent_abort {A} (e : exn) : silent (@abort A e).
Proof.
  intros w. exists []. unfold abort.
  destruct (w_conn w) as [[work now] |]; simpl; now rewrite app_nil_r.
Qed.

Lemma silent_connect (P : platform) (dsn : string) : silent (psycopg2_connect P dsn).
Proof.
  intros w. exists [EvConnect dsn]. unfold psycopg2_connect.
  now destruct (connect_error P dsn).
Qed.

Lemma silent_execute (s : statement) : silent (execute s).
Proof.
  intros w. unfold execute.
  destruct (w_conn w) as [[work now] |].
  - exists [EvExecute s].
    destruct (run_statement now s work) as [work' [n | e]]; [easy |].
    unfold abort. now simpl.
  - exists []. simpl. now rewrite app_nil_r.
Qed.

Lemma silent_commit (c : connection) : silent (commit c).
Proof.
  intros w. unfold commit.
  destruct (w_conn w) as [[work now] |].
  - now exists [EvCommit].
  - exists []. simpl. now rewrite app_nil_r.
Qed.

Lemma silent_close (c : connection) : silent (close c).
Proof. intros w. now exists [EvClose]. Qed.

Lemma silent_execute_pages {T V} (input : T -> option V) (mk : list V -> statement)
    (pages : list (list T)) :
  forall rowcount, silent (execute_pages input mk pages rowcount).
Proof.
  induction pages as [| page pages IH]; intros rowcount; simpl.
  - apply silent_ret.
  - destruct (all_some input page).
    + apply silent_bind; [apply silent_execute | intros n; apply IH].
    + apply silent_abort.
Qed.

Lemma silent_get_db_connection (P : platform) : silent (get_db_connection P).
Proof.
  unfold get_db_connection.
  destruct (getenv_DATABASE_URL P) as [dsn |]; [| apply silent_raise].
  destruct (negb (String.eqb dsn "")); [apply silent_connect | apply silent_raise].
Qed.

Create HintDb silent.

#[local] Hint Resolve silent_ret silent_raise silent_lift silent_print
  silent_abort silent_connect silent_execute silent_commit silent_close
  silent_execute_pages silent_get_db_connection : silent.

Ltac silent_steps :=
  repeat first
    [ apply silent_bind; [| intros ?]
    | apply silent_try_except; [| intros ?]
    | progress eauto with silent ].

Lemma silent_create_tables (P : platform) : silent (create_tables P).
Proof. unfold create_tables. silent_steps. Qed.

Lemma silent_populate_teams (P : platform) : silent (populate_teams P).
Proof. unfold populate_teams, execute_values. silent_steps. Qed.

(** What follows the request in [populate_games] adds no request. *)
Lemma populate_games_trace (P : platform) (season : Z) (week : option Z) (w : world) :
  exists t,
    w_trace (fst (populate_games P season week w))
    = w_trace w ++ EvHttpGet (scoreboard_url season week) :: t
    /\ requests_of t = [].
Proof.
  unfold populate_games, populate_games_body, try_except, bind, requests_get.
  set (url := scoreboard_url season week).
  set (w0 := World (w_db w) (w_conn w) (w_clock w) (w_trace w ++ [EvHttpGet url])).
  assert (Hh : forall e, silent (print ("Error populating games: " +:+ str_exn P e)))
    by (intros e; apply silent_print).
  assert (Hstep : forall (m : M unit),
             silent m ->
             exists t,
               w_trace (fst (match m w0 with
                             | (w', Ok a) => (w', Ok a)
                             | (w', Raise e) =>
                                 print ("Error populating games: " +:+ str_exn P e) w'
                             end))
               = w_trace w ++ EvHttpGet url :: t /\ requests_of t = []).
  { intros m Hm.
    destruct (silent_try_except m _ Hm Hh w0) as (t & E & Q).
    exists t. split; [| exact Q].
    unfold try_except in E. rewrite E. unfold w0. simpl.
    now rewrite <- app_assoc. }
  destruct (http_get P (length (requests_of (w_trace w))) url) as [e | code body].
  - destruct (Hh e w0) as (t & E & Q). exists t. split; [| exact Q].
    rewrite E. unfold w0. simpl. now rewrite <- app_assoc.
  - destruct (negb (code =? 200)).
    + apply (Hstep (print ("Failed to fetch games: " +:+ str_int code))).
      apply silent_print.
    + apply (Hstep
        (data <- lift body ;;
         games <- lift (parse_games P season week data) ;;
         match games with
         | [] => ret tt
         | _ =>
             conn <- get_db_connection P ;;
             execute_values (game_input P) UpsertGames games ;;;
             commit conn ;;;
             print ("Inserted/updated " +:+ str_int (Z.of_nat (length games)) +:+ " games") ;;;
             close conn
         end)).
      unfold execute_values. silent_steps.
      destruct a0; silent_steps.
Qed.

Lemma populate_games_returns (P : platform) (season : Z) (week : option Z) (w : world) :
  snd (populate_games P season week w) = Ok tt.
Proof.
  unfold populate_games, try_except.
  now destruct (populate_games_body P season week w) as [w' [[] | e]].
Qed.

Lemma fetch_week_trace (P : platform) (week : Z) (w : world) :
  exists w' tail,
    fetch_week P week w = (w', Ok tt)
    /\ requests_of tail = []
    /\ w_trace w' = w_trace w ++ week_trace week tail.
Proof.
  unfold fetch_week, bind, print, emit.
  set (w0 := World _ _ _ _).
  destruct (populate_games_trace P 2025 (Some week) w0) as (t & E & Q).
  pose proof (populate_games_returns P 2025 (Some week) w0) as R.
  destruct (populate_games P 2025 (Some week) w0) as [w' r]; simpl in *.
  exists w', t. subst r. repeat split; [exact Q |].
  rewrite E. unfold w0, week_trace. simpl. now rewrite <- app_assoc.
Qed.

Lemma fetch_weeks_trace (P : platform) (weeks : list Z) :
  forall w, exists w' tails,
    for_each weeks (fetch_week P) w = (w', Ok tt)
    /\ length tails = length weeks
    /\ Forall (fun t => requests_of t = []) tails
    /\ w_trace w' = w_trace w ++ concat (zip_with week_trace weeks tails).
Proof.
  induction weeks as [| k weeks IH]; intros w.
  - exists w, []. simpl. repeat split; [constructor | now rewrite app_nil_r].
  - destruct (fetch_week_trace P k w) as (w1 & t & E1 & Q1 & T1).
    destruct (IH w1) as (w' & ts & E2 & L & F & T2).
    exists w', (t :: ts). simpl. unfold bind. rewrite E1, E2.
    repeat split; [now rewrite L | now constructor |].
    now rewrite T2, T1, <- app_assoc.
Qed.

Lemma requests_of_weeks (weeks : list Z) :
  forall tails,
    length tails = length weeks ->
    Forall (fun t => requests_of t = []) tails ->
    requests_of (concat (zip_with week_trace weeks tails)) = map week_url weeks.
Proof.
  induction weeks as [| k weeks IH]; intros [| t ts] L F; try easy.
  inversion F as [| ? ? Q F']; subst.
  change (requests_of (concat (zip_with week_trace (k :: weeks) (t :: ts))))
    with (week_url k :: requests_of (t ++ concat (zip_with week_trace weeks ts))).
  rewrite requests_of_app, Q. simpl. f_equal.
  apply IH; [simpl in L; lia | exact F'].
Qed.

(** The loop of the driver asks for every week of the list, whatever
    the earlier weeks met. *)
Lemma fetch_weeks_requests (P : platform) (weeks : list Z) (w : world) :
  exists w',
    for_each weeks (fetch_week P) w = (w', Ok tt)
    /\ requests_of (w_trace w') = requests_of (w_trace w) ++ map week_url weeks.
Proof.
  destruct (fetch_weeks_trace P weeks w) as (w' & ts & E & L & F & T).
  exists w'. split; [exact E |].
  now rewrite T, requests_of_app, requests_of_weeks.
Qed.

Lemma same_data_refl (d : database) : same_data d d.
Proof. now repeat split. Qed.

Lemma same_data_trans (d1 d2 d3 : database) :
  same_data d1 d2 -> same_data d2 d3 -> same_data d1 d3.
Proof. intros (A & B & C) (A' & B' & C'). repeat split; congruence. Qed.

Lemma rolled_back_same_data (old cur : database) : same_data (rolled_back old cur) old.
Proof. now repeat split. Qed.

Lemma rolled_back_id (d : database) : rolled_back d d = d.
Proof.
  destruct d as [c [r n] [r' n']]. unfold rolled_back. simpl.
  now repeat destruct (bool_decide _).
Qed.

(** Until [commit], nothing a connection does reaches the committed
    catalog or rows. *)
Lemma abort_keeps_committed {A} (e : exn) (w : world) :
  same_data (w_db (fst (@abort A e w))) (w_db w).
Proof.
  unfold abort. destruct (w_conn w) as [[work now] |]; simpl.
  - apply rolled_back_same_data.
  - apply same_data_refl.
Qed.

Lemma execute_keeps_committed (s : statement) (w : world) :
  same_data (w_db (fst (execute s w))) (w_db w).
Proof.
  unfold execute. destruct (w_conn w) as [[work now] |]; [| apply same_data_refl].
  destruct (run_statement now s work) as [work' [n | e]]; simpl.
  - apply same_data_refl.
  - apply rolled_back_same_data.
Qed.

Lemma execute_pages_keeps_committed {T V} (input : T -> option V)
    (mk : list V -> statement) (pages : list (list T)) :
  forall rowcount w,
    same_data (w_db (fst (execute_pages input mk pages rowcount w))) (w_db w).
Proof.
  induction pages as [| page pages IH]; intros rowcount w; simpl.
  - apply same_data_refl.
  - destruct (all_some input page) as [vs |]; [| apply abort_keeps_committed].
    unfold bind. pose proof (execute_keeps_committed (mk vs) w) as H.
    destruct (execute (mk vs) w) as [w1 [n | e]]; simpl in H; [| exact H].
    eapply same_data_trans; [apply IH | exact H].
Qed.

Lemma get_db_connection_keeps (P : platform) (w : world) :
  w_db (fst (get_db_connection P w)) = w_db w.
Proof.
  unfold get_db_connection.
  destruct (getenv_DATABASE_URL P) as [dsn |]; [| reflexivity].
  destruct (negb (String.eqb dsn "")); [| reflexivity].
  unfold psycopg2_connect. now destruct (connect_error P dsn).
Qed.

(** ** [populate_games]: failures *)

Lemma populate_games_body_raise_keeps (P : platform) (season : Z) (week : option Z)
    (w w1 : world) (e : exn) :
  populate_games_body P season week w = (w1, Raise e) ->
  same_data (w_db w1) (w_db w).
Proof.
  unfold populate_games_body, bind, requests_get.
  set (w0 := World (w_db w) (w_conn w) (w_clock w) _).
  destruct (http_get P _ _) as [e0 | code body].
  { intros H. inversion H. subst. apply same_data_refl. }
  destruct (negb (code =? 200)); [discriminate |].
  unfold lift. destruct body as [data | e0].
  2: { intros H. inversion H. subst. apply same_data_refl. }
  destruct (parse_games P season week data) as [games | e0].
  2: { intros H. inversion H. subst. apply same_data_refl. }
  destruct games as [| g games]; [discriminate |].
  pose proof (get_db_connection_keeps P w0) as K.
  destruct (get_db_connection P w0) as [w2 [conn | e2]]; simpl in K.
  2: { intros H. inversion H. subst. rewrite K. apply same_data_refl. }
  unfold execute_values.
  pose proof (execute_pages_keeps_committed (game_input P) UpsertGames
                (paginate 100 (g :: games)) (-1) w2) as X.
  destruct (execute_pages _ _ _ _ w2) as [w3 [n | e3]]; simpl in X; rewrite K in X.
  2: { intros H. inversion H. subst. exact X. }
  unfold commit. destruct (w_conn w3) as [[work now] |].
  - discriminate.
  - intros H. inversion H. subst. exact X.
Qed.

(** C3: whatever happens between [try] and [except] in
    [populate_games], the function returns normally.  When the body
    raises [e], the line "Error populating games: " followed by [str(e)]
    is printed, nothing else is done and the committed catalog and rows
    are those from before the call.  The loop of the driver therefore
    runs through all its weeks, one request each, whatever the outcome
    of the weeks before. *)
Theorem populate_games_swallows_exceptions (P : platform) (season : Z)
    (week : option Z) (w : world) :
  snd (populate_games P season week w) = Ok tt
  /\ match populate_games_body P season week w with
     | (w1, Raise e) =>
         populate_games P season week w
         = (World (w_db w1) (w_conn w1) (w_clock w1)
              (w_trace w1 ++ [EvPrint ("Error populating games: " +:+ str_exn P e)]),
            Ok tt)
         /\ same_data (w_db w1) (w_db w)
     | (w1, Ok _) => populate_games P season week w = (w1, Ok tt)
     end
  /\ forall weeks, exists w',
       for_each weeks (fetch_week P) w = (w', Ok tt)
       /\ requests_of (w_trace w') = requests_of (w_trace w) ++ map week_url weeks.
Proof.
  split; [apply populate_games_returns |]. split.
  - pose proof (populate_games_body_raise_keeps P season week w) as K.
    unfold populate_games, try_except.
    destruct (populate_games_body P season week w) as [w1 [[] | e]].
    + reflexivity.
    + split; [reflexivity | now apply (K w1 e)].
  - intros weeks. apply fetch_weeks_requests.
Qed.

(** An exception of each stage, caught: the network, the decoding of
    the body, the parsing of an event, the database. *)
Example swallowed_network_error :
  populate_games
    (sample_platform (Some "postgresql://neon/nfl") (HttpFailed (RequestException "no route to host")))
    2025 (Some 1) fresh_world
  = (World empty_database None 0
       [EvHttpGet (week_url 1); EvPrint "Error populating games: error"], Ok tt).
Proof. reflexivity. Qed.

Example swallowed_malformed_event :
  populate_games
    (sample_platform (Some "postgresql://neon/nfl")
       (HttpResponse 200 (Ok (JObj [("events", JArr [JStr "oops"])]))))
    2025 (Some 1) fresh_world
  = (World empty_database None 0
       [EvHttpGet (week_url 1); EvPrint "Error populating games: error"], Ok tt).
Proof. reflexivity. Qed.

Example swallowed_missing_configuration :
  populate_games
    (sample_platform None (HttpResponse 200 (Ok sample_scoreboard)))
    2025 (Some 1) fresh_world
  = (World empty_database None 0
       [EvHttpGet (week_url 1);
        EvPrint "Error populating games: DATABASE_URL environment variable not set"],
     Ok tt).
Proof. reflexivity. Qed.

(** C4: when the status code of the response is not 200, and so
    whenever it is not a success, [populate_games] prints "Failed to
    fetch games: " and the code and returns normally; the database, its
    connection and its clock are as before, nothing is sent to the
    server.  The driver's loop goes on with the weeks that follow and
    requests each of them. *)
Theorem populate_games_failed_status (P : platform) (season : Z) (week : option Z)
    (w : world) (code : Z) (body : result pyval) :
  http_get P (length (requests_of (w_trace w))) (scoreboard_url season week)
  = HttpResponse code body ->
  code <> 200 ->
  populate_games P season week w
  = (World (w_db w) (w_conn w) (w_clock w)
       (w_trace w ++ [EvHttpGet (scoreboard_url season week);
                      EvPrint ("Failed to fetch games: " +:+ str_int code)]),
     Ok tt)
  /\ forall later, exists w',
       for_each later (fetch_week P) (fst (populate_games P season week w)) = (w', Ok tt)
       /\ requests_of (w_trace w')
          = requests_of (w_trace w) ++ scoreboard_url season week :: map week_url later.
Proof.
  intros H Hc.
  assert (E : populate_games P season week w
              = (World (w_db w) (w_conn w) (w_clock w)
                   (w_trace w ++ [EvHttpGet (scoreboard_url season week);
                                  EvPrint ("Failed to fetch games: " +:+ str_int code)]),
                 Ok tt)).
  { unfold populate_games, try_except, populate_games_body, bind, requests_get.
    rewrite H. apply Z.eqb_neq in Hc. rewrite Hc.
    unfold print, emit. cbn [negb w_db w_conn w_clock w_trace].
    now rewrite <- app_assoc. }
  split; [exact E |].
  intros later. rewrite E. cbn [fst].
  destruct (fetch_weeks_requests P later
              (World (w_db w) (w_conn w) (w_clock w)
                 (w_trace w ++ [EvHttpGet (scoreboard_url season week);
                                EvPrint ("Failed to fetch games: " +:+ str_int code)])))
    as (w' & E' & R).
  exists w'. split; [exact E' |].
  rewrite R. cbn [w_trace]. rewrite requests_of_app. cbn.
  now rewrite <- app_assoc.
Qed.

Lemma populate_games_failed_status_witness :
  populate_games
    (sample_platform (Some "postgresql://neon/nfl") (HttpResponse 503 (Ok JNull)))
    2025 (Some 3) fresh_world
  = (World empty_database None 0
       [EvHttpGet (week_url 3); EvPrint "Failed to fetch games: 503"], Ok tt).
Proof.
  apply (populate_games_failed_status
           (sample_platform (Some "postgresql://neon/nfl") (HttpResponse 503 (Ok JNull)))
           2025 (Some 3) fresh_world 503 (Ok JNull)).
  - reflexivity.
  - lia.
Defined.

(** ** [populate_games]: nothing to write *)

Lemma parse_event_without_competitions (P : platform) (season : Z) (week : option Z)
    (event : pyval) :
  without_competitions event = true ->
  parse_event P season week event = Ok None.
Proof.
  destruct event as [| | | | | | d]; try discriminate.
  unfold without_competitions, parse_event, get. cbn [rbind].
  intros H. apply andb_prop in H as [Hd Hc].
  destruct (dict_lookup "date" d) as [[| | | | s | |] |]; try discriminate;
    cbn [split_T_0 rbind];
    (destruct (dict_lookup "competitions" d) as [v |];
     [ now rewrite Hc | reflexivity ]).
Qed.

Lemma parse_skips_all (P : platform) (season : Z) (week : option Z) (es : list pyval) :
  forallb without_competitions es = true ->
  forall games,
    rfold (fun games event => append_game P games event season week) es games = Ok games.
Proof.
  induction es as [| e es IH]; intros H games; [reflexivity |].
  simpl in H. apply andb_prop in H as [He Hes].
  cbn [rfold]. unfold append_game at 1.
  rewrite (parse_event_without_competitions P season week e He).
  cbn [rbind]. now apply IH.
Qed.

(** C10: a response with status 200 whose parsed list of games is
    empty, as it is when there are no events or when every event lacks
    competitions (such an event adds no game), makes [populate_games]
    return normally after its one request: no connection is opened, no
    statement sent, nothing printed, and the database is the one from
    before the call. *)
Theorem populate_games_nothing_to_write (P : platform) (season : Z) (week : option Z)
    (w : world) (data : pyval) :
  http_get P (length (requests_of (w_trace w))) (scoreboard_url season week)
  = HttpResponse 200 (Ok data) ->
  (parse_games P season week data = Ok []
   \/ exists es, get data "events" (JArr []) = Ok (JArr es)
                 /\ forallb without_competitions es = true) ->
  parse_games P season week data = Ok []
  /\ populate_games P season week w
     = (World (w_db w) (w_conn w) (w_clock w)
          (w_trace w ++ [EvHttpGet (scoreboard_url season week)]), Ok tt).
Proof.
  intros H Hempty.
  assert (E : parse_games P season week data = Ok []).
  { destruct Hempty as [E | (es & G & S)]; [exact E |].
    unfold parse_games. rewrite G. cbn [rbind iter].
    now apply parse_skips_all. }
  split; [exact E |].
  unfold populate_games, try_except, populate_games_body, bind, requests_get.
  rewrite H. cbn [Z.eqb Pos.eqb negb lift]. now rewrite E.
Qed.

Lemma populate_games_nothing_to_write_witness :
  populate_games
    (sample_platform (Some "postgresql://neon/nfl")
       (HttpResponse 200
          (Ok (JObj [("events",
                      JArr [JObj [("id", JStr "401"); ("competitions", JArr [])];
                            JObj [("id", JStr "402"); ("date", JStr "2025-09-08T00:20Z")];
                            JObj [("id", JStr "403"); ("competitions", JNull)]])]))))
    2025 (Some 1) fresh_world
  = (World empty_database None 0 [EvHttpGet (week_url 1)], Ok tt).
Proof.
  eapply (populate_games_nothing_to_write
            (sample_platform (Some "postgresql://neon/nfl") _)
            2025 (Some 1) fresh_world).
  - reflexivity.
  - right. eexists. split; reflexivity.
Defined.

(** ** Normal returns, step by step *)

Lemma bind_ok {A B} (m : M A) (k : A -> M B) (w w' : world) (b : B) :
  bind m k w = (w', Ok b) ->
  exists w1 a, m w = (w1, Ok a) /\ k a w1 = (w', Ok b).
Proof.
  unfold bind. destruct (m w) as [w1 [a | e]]; [| discriminate].
  intros H. now exists w1, a.
Qed.

Lemma get_db_connection_ok (P : platform) (w w1 : world) (c : connection) :
  get_db_connection P w = (w1, Ok c) ->
  exists dsn,
    getenv_DATABASE_URL P = Some dsn
    /\ dsn <> ""%string
    /\ connect_error P dsn = None
    /\ w1 = World (w_db w) (Some (w_db w, w_clock w)) (w_clock w + 1)
              (w_trace w ++ [EvConnect dsn]).
Proof.
  unfold get_db_connection.
  destruct (getenv_DATABASE_URL P) as [dsn |]; [| discriminate].
  destruct (String.eqb_spec dsn "") as [-> | Hne]; cbn [negb]; [discriminate |].
  unfold psycopg2_connect. destruct (connect_error P dsn) eqn:C; [discriminate |].
  intros H. inversion H. now exists dsn.
Qed.

Lemma execute_ok (s : statement) (w w1 : world) (n : Z) :
  execute s w = (w1, Ok n) ->
  exists work now work',
    w_conn w = Some (work, now)
    /\ run_statement now s work = (work', Ok n)
    /\ w1 = World (w_db w) (Some (work', now)) (w_clock w) (w_trace w ++ [EvExecute s]).
Proof.
  unfold execute. destruct (w_conn w) as [[work now] |]; [| discriminate].
  destruct (run_statement now s work) as [work' [n' | e]] eqn:R.
  - intros H. inversion H. subst. now exists work, now, work'.
  - unfold abort. cbn [w_conn]. discriminate.
Qed.

Lemma commit_ok (c : connection) (w w1 : world) :
  commit c w = (w1, Ok tt) ->
  exists work now,
    w_conn w = Some (work, now)
    /\ w1 = World work (Some (work, now)) (w_clock w) (w_trace w ++ [EvCommit]).
Proof.
  unfold commit. destruct (w_conn w) as [[work now] |]; [| discriminate].
  intros H. inversion H. now exists work, now.
Qed.

Lemma seed_values_input (P : platform) :
  all_some (team_input P) teams = Some seed_values.
Proof. reflexivity. Qed.

Lemma teams_one_page : paginate 100 teams = [teams].
Proof. reflexivity. Qed.

(** The steps of [create_tables] when it returns normally. *)
Lemma create_tables_ok (P : platform) (w w1 : world) :
  create_tables P w = (w1, Ok tt) ->
  exists dsn db1 db2 db3 db4,
    getenv_DATABASE_URL P = Some dsn
    /\ dsn <> ""%string
    /\ connect_error P dsn = None
    /\ create_table_if_not_exists "nfl_teams" nfl_teams_def (w_db w) = Ok db1
    /\ create_table_if_not_exists "nfl_games" nfl_games_def db1 = Ok db2
    /\ create_table_if_not_exists "nfl_players" nfl_players_def db2 = Ok db3
    /\ create_table_if_not_exists "nfl_player_stats" nfl_player_stats_def db3 = Ok db4
    /\ w1 = World db4 None (w_clock w + 1) (w_trace w ++ create_tables_trace dsn).
Proof.
  unfold create_tables. intros H.
  apply bind_ok in H as (wa & c & Hc & H).
  apply get_db_connection_ok in Hc as (dsn & Henv & Hne & Hcon & ->).
  apply bind_ok in H as (wb & n1 & H1 & H).
  apply execute_ok in H1 as (k1 & t1 & db1 & C1 & R1 & ->).
  apply bind_ok in H as (wc & n2 & H2 & H).
  apply execute_ok in H2 as (k2 & t2 & db2 & C2 & R2 & ->).
  apply bind_ok in H as (wd & n3 & H3 & H).
  apply execute_ok in H3 as (k3 & t3 & db3 & C3 & R3 & ->).
  apply bind_ok in H as (we & n4 & H4 & H).
  apply execute_ok in H4 as (k4 & t4 & db4 & C4 & R4 & ->).
  apply bind_ok in H as (wf & [] & H5 & H).
  apply commit_ok in H5 as (k5 & t5 & C5 & ->).
  apply bind_ok in H as (wg & [] & H6 & H).
  cbn [w_conn w_db w_clock w_trace] in *.
  inversion C1; subst k1 t1; clear C1.
  unfold run_statement in R1.
  destruct (create_table_if_not_exists "nfl_teams" _ _) as [d1 |] eqn:E1; [| discriminate].
  inversion R1; subst db1; clear R1.
  inversion C2; subst k2 t2; clear C2.
  unfold run_statement in R2.
  destruct (create_table_if_not_exists "nfl_games" _ _) as [d2 |] eqn:E2; [| discriminate].
  inversion R2; subst db2; clear R2.
  inversion C3; subst k3 t3; clear C3.
  unfold run_statement in R3.
  destruct (create_table_if_not_exists "nfl_players" _ _) as [d3 |] eqn:E3; [| discriminate].
  inversion R3; subst db3; clear R3.
  inversion C4; subst k4 t4; clear C4.
  unfold run_statement in R4.
  destruct (create_table_if_not_exists "nfl_player_stats" _ _) as [d4 |] eqn:E4;
    [| discriminate].
  inversion R4; subst db4; clear R4.
  inversion C5; subst k5 t5; clear C5.
  exists dsn, d1, d2, d3, d4.
  repeat (split; [first [eassumption | reflexivity] |]).
  unfold close in H6. cbn [w_conn w_db w_clock w_trace] in H6.
  rewrite rolled_back_id in H6. inversion H6; subst wg; clear H6.
  unfold print, emit in H. cbn [w_conn w_db w_clock w_trace] in H.
  inversion H. unfold create_tables_trace. f_equal.
  repeat rewrite <- app_assoc. reflexivity.
Qed.

(** The steps of [populate_teams] when it returns normally. *)
Lemma populate_teams_ok (P : platform) (w w1 : world) :
  populate_teams P w = (w1, Ok tt) ->
  exists dsn work rowcount,
    getenv_DATABASE_URL P = Some dsn
    /\ dsn <> ""%string
    /\ connect_error P dsn = None
    /\ run_statement (w_clock w) (InsertTeams seed_values) (w_db w) = (work, Ok rowcount)
    /\ w1 = World work None (w_clock w + 1) (w_trace w ++ populate_teams_trace dsn rowcount).
Proof.
  unfold populate_teams, execute_values. rewrite teams_one_page.
  cbn [execute_pages]. rewrite seed_values_input.
  intros H.
  apply bind_ok in H as (wa & c & Hc & H).
  apply get_db_connection_ok in Hc as (dsn & Henv & Hne & Hcon & ->).
  apply bind_ok in H as (wb & n & H1 & H).
  apply bind_ok in H1 as (wc & n' & H1 & H2).
  apply execute_ok in H1 as (k & t & work & C & R & ->).
  unfold ret in H2. inversion H2; subst wb n'; clear H2.
  apply bind_ok in H as (wd & [] & H3 & H).
  apply commit_ok in H3 as (k' & t' & C' & ->).
  apply bind_ok in H as (we & [] & H4 & H).
  cbn [w_conn w_db w_clock w_trace] in *.
  inversion C; subst k t; clear C. inversion C'; subst k' t'; clear C'.
  exists dsn, work, n.
  repeat (split; [first [eassumption | reflexivity] |]).
  unfold print, emit in H4. cbn [w_conn w_db w_clock w_trace] in H4.
  inversion H4; subst we; clear H4.
  unfold close in H. cbn [w_conn w_db w_clock w_trace] in H.
  rewrite rolled_back_id in H. inversion H.
  unfold populate_teams_trace. f_equal.
  repeat rewrite <- app_assoc. reflexivity.
Qed.

(** ** [main] *)

Lemma range_weeks : range 1 (current_week + 1) = [1; 2; 3; 4; 5; 6; 7; 8; 9; 10; 11].
Proof. reflexivity. Qed.

(** C8: a run of [main] that reaches its end has done, in this order:
    the four [CREATE TABLE IF NOT EXISTS] and their commit; the one
    insert of the 32 teams and its commit; then, for the season 2025 and
    for each week 1, 2, ..., 11 in turn, the line announcing the week and
    exactly one request, for that week's address, followed by what
    [populate_games] does with the response before the next week
    starts. *)
Theorem main_runs_in_order (P : platform) (w w' : world) :
  main P w = (w', Ok tt) ->
  exists dsn rowcount tails,
    length tails = 11%nat
    /\ Forall (fun t => requests_of t = []) tails
    /\ w_trace w'
       = w_trace w
         ++ [EvPrint "Starting NFL data population...";
             EvPrint (nl +:+ "1. Creating tables...")]
         ++ create_tables_trace dsn
         ++ [EvPrint (nl +:+ "2. Populating teams...")]
         ++ populate_teams_trace dsn rowcount
         ++ [EvPrint (nl +:+ "3. Populating games for 2025 season...")]
         ++ concat (zip_with week_trace [1; 2; 3; 4; 5; 6; 7; 8; 9; 10; 11] tails)
         ++ [EvPrint (nl +:+ "NFL data population completed!")]
    /\ requests_of (w_trace w')
       = requests_of (w_trace w) ++ map week_url [1; 2; 3; 4; 5; 6; 7; 8; 9; 10; 11].
Proof.
  unfold main. rewrite range_weeks. intros H.
  apply bind_ok in H as (wa & [] & Ha & H).
  apply bind_ok in H as (wb & [] & Hb & H).
  apply bind_ok in H as (wc & [] & Hc & H).
  apply bind_ok in H as (wd & [] & Hd & H).
  apply bind_ok in H as (we & [] & He & H).
  apply bind_ok in H as (wf & [] & Hf & H).
  apply bind_ok in H as (wg & [] & Hg & H).
  unfold print, emit in Ha, Hb, Hd, Hf, H.
  inversion Ha; subst wa; clear Ha. inversion Hb; subst wb; clear Hb.
  apply create_tables_ok in Hc as (dsn & d1 & d2 & d3 & d4 & Henv & _ & _ & _ & _ & _ & _ & ->).
  inversion Hd; subst wd; clear Hd.
  apply populate_teams_ok in He as (dsn' & work & n & Henv' & _ & _ & _ & ->).
  rewrite Henv in Henv'. inversion Henv'; subst dsn'; clear Henv'.
  inversion Hf; subst wf; clear Hf.
  destruct (fetch_weeks_trace P [1; 2; 3; 4; 5; 6; 7; 8; 9; 10; 11]
              (World work None (w_clock w + 1 + 1)
                 ((((((w_trace w ++ [EvPrint "Starting NFL data population..."])
                      ++ [EvPrint (nl +:+ "1. Creating tables...")])
                     ++ create_tables_trace dsn)
                    ++ [EvPrint (nl +:+ "2. Populating teams...")])
                   ++ populate_teams_trace dsn n)
                  ++ [EvPrint (nl +:+ "3. Populating games for 2025 season...")])))
    as (wg' & tails & E & L & F & T).
  cbn [w_db w_conn w_clock w_trace] in Hg.
  rewrite E in Hg. inversion Hg; subst wg'; clear Hg.
  inversion H; subst w'; clear H.
  cbn [w_trace] in *.
  assert (Tr : w_trace wg ++ [EvPrint (nl +:+ "NFL data population completed!")]
               = w_trace w
                 ++ [EvPrint "Starting NFL data population...";
                     EvPrint (nl +:+ "1. Creating tables...")]
                 ++ create_tables_trace dsn
                 ++ [EvPrint (nl +:+ "2. Populating teams...")]
                 ++ populate_teams_trace dsn n
                 ++ [EvPrint (nl +:+ "3. Populating games for 2025 season...")]
                 ++ concat (zip_with week_trace [1; 2; 3; 4; 5; 6; 7; 8; 9; 10; 11] tails)
                 ++ [EvPrint (nl +:+ "NFL data population completed!")]).
  { rewrite T. repeat rewrite <- app_assoc. reflexivity. }
  exists dsn, n, tails. repeat split; [exact L | exact F | exact Tr |].
  rewrite Tr. repeat rewrite requests_of_app.
  rewrite (requests_of_weeks _ tails L F). cbn. reflexivity.
Qed.

Lemma main_runs_in_order_witness :
  requests_of
    (w_trace (fst (main (sample_platform (Some "postgresql://neon/nfl")
                           (HttpResponse 200 (Ok sample_scoreboard)))
                        fresh_world)))
  = map week_url [1; 2; 3; 4; 5; 6; 7; 8; 9; 10; 11].
Proof.
  destruct (main_runs_in_order
              (sample_platform (Some "postgresql://neon/nfl")
                 (HttpResponse 200 (Ok sample_scoreboard)))
              fresh_world
              (fst (main (sample_platform (Some "postgresql://neon/nfl")
                            (HttpResponse 200 (Ok sample_scoreboard)))
                         fresh_world)))
    as (dsn & n & tails & L & F & T & R).
  - vm_compute. reflexivity.
  - exact R.
Defined.

(** ** The upsert of games *)

Lemma lookup_map {A B} (f : A -> B) (l : list A) (i : nat) :
  map f l !! i = option_map f (l !! i).
Proof.
  revert i. induction l as [| x l IH]; intros [| i]; simpl; try reflexivity.
  apply IH.
Qed.

Lemma same_fixed_columns_refl (r : game_row) : same_fixed_columns r r.
Proof. now repeat split. Qed.

Lemma same_fixed_columns_trans (r1 r2 r3 : game_row) :
  same_fixed_columns r1 r2 -> same_fixed_columns r2 r3 -> same_fixed_columns r1 r3.
Proof.
  unfold same_fixed_columns. intros H1 H2.
  repeat match goal with H : _ /\ _ |- _ => destruct H end.
  repeat split; congruence.
Qed.

Lemma same_fixed_columns_do_update (now : Z) (v : game_values) (r : game_row) :
  same_fixed_columns r (do_update now v r).
Proof. now repeat split. Qed.

Lemma conflicts_key (v : game_values) (r : game_row) :
  conflicts v r = true ->
  g_game_id r = gv_game_id v /\ is_null (gv_game_id v) = false.
Proof.
  unfold conflicts, sql_eq. intros H.
  apply andb_prop in H as [N E]. apply bool_decide_eq_true in E.
  rewrite <- E. split; [reflexivity |]. now destruct (is_null (g_game_id r)).
Qed.

Lemma conflicts_do_update (now : Z) (v v' : game_values) (r : game_row) :
  conflicts v' (if conflicts v r then do_update now v r else r) = conflicts v' r.
Proof. now destruct (conflicts v r). Qed.

Lemma existsb_conflicts_map (now : Z) (v v' : game_values) (rs : list game_row) :
  existsb (conflicts v')
    (map (fun r => if conflicts v r then do_update now v r else r) rs)
  = existsb (conflicts v') rs.
Proof.
  induction rs as [| r rs IH]; [reflexivity |].
  simpl. now rewrite conflicts_do_update, IH.
Qed.

(** Rows that were there stay where they are and keep the columns the
    update does not name. *)
Lemma upsert_games_frame (now : Z) (vs : list game_values) :
  forall rs seq touched count seq' rs' n,
    upsert_games now vs rs seq touched count = (seq', Ok (rs', n)) ->
    forall i r, rs !! i = Some r ->
      exists r', rs' !! i = Some r' /\ same_fixed_columns r r'.
Proof.
  induction vs as [| v vs IH]; intros rs seq touched count seq' rs' n H i r L;
    simpl in H.
  - inversion H; subst. exists r. split; [exact L | apply same_fixed_columns_refl].
  - destruct (existsb (conflicts v) rs).
    + destruct (existsb _ touched); [discriminate |].
      eapply IH in H as (r' & L' & S).
      2: { rewrite lookup_map, L. reflexivity. }
      exists r'. split; [exact L' |].
      eapply same_fixed_columns_trans; [| exact S].
      destruct (conflicts v r);
        [apply same_fixed_columns_do_update | apply same_fixed_columns_refl].
    + destruct (existsb _ rs); [discriminate |].
      eapply IH in H; [exact H |]. now apply lookup_app_l_Some.
Qed.

(** A row whose key the statement has already touched is not touched
    again by a statement that succeeds. *)
Lemma upsert_games_touched_fixed (now : Z) (vs : list game_values) :
  forall rs seq touched count seq' rs' n,
    upsert_games now vs rs seq touched count = (seq', Ok (rs', n)) ->
    forall i r, rs !! i = Some r ->
      existsb (fun k => sql_eq k (g_game_id r)) touched = true ->
      rs' !! i = Some r.
Proof.
  induction vs as [| v vs IH]; intros rs seq touched count seq' rs' n H i r L T;
    simpl in H.
  - now inversion H; subst.
  - destruct (existsb (conflicts v) rs).
    + destruct (existsb (fun k => sql_eq k (gv_game_id v)) touched) eqn:Tv;
        [discriminate |].
      assert (C : conflicts v r = false).
      { destruct (conflicts v r) eqn:C; [| reflexivity].
        apply conflicts_key in C as [E _]. rewrite E in T. congruence. }
      eapply IH in H; [exact H | |].
      * rewrite lookup_map, L. simpl. now rewrite C.
      * simpl. now rewrite T, orb_true_r.
    + destruct (existsb _ rs); [discriminate |].
      eapply IH in H; [exact H | |].
      * now apply lookup_app_l_Some.
      * simpl. now rewrite T, orb_true_r.
Qed.

(** A statement with a tuple for a key it has already touched fails. *)
Lemma upsert_games_refuses (now : Z) (vs : list game_values) (v : game_values) :
  In v vs ->
  forall rs seq touched count,
    existsb (conflicts v) rs = true ->
    existsb (fun k => sql_eq k (gv_game_id v)) touched = true ->
    exists seq' e, upsert_games now vs rs seq touched count = (seq', Raise e).
Proof.
  induction vs as [| v0 vs IH]; intros Hin rs seq touched count C T; [easy |].
  simpl. destruct Hin as [-> | Hin].
  - rewrite C, T. eauto.
  - destruct (existsb (conflicts v0) rs).
    + destruct (existsb (fun k => sql_eq k (gv_game_id v0)) touched); [eauto |].
      apply IH; [exact Hin | | ].
      * now rewrite existsb_conflicts_map.
      * simpl. now rewrite T, orb_true_r.
    + destruct (existsb (fun r => g_id r =? seq) rs); [eauto |].
      apply IH; [exact Hin | | ].
      * rewrite existsb_app, C. reflexivity.
      * simpl. now rewrite T, orb_true_r.
Qed.

(** A statement that succeeds has given every row in conflict with one
    of its tuples the scores and the status of that tuple, and the
    time of the transaction. *)
Lemma upsert_games_overwrites (now : Z) (vs : list game_values) :
  forall rs seq touched count seq' rs' n,
    upsert_games now vs rs seq touched count = (seq', Ok (rs', n)) ->
    forall v i r, In v vs -> rs !! i = Some r -> conflicts v r = true ->
      rs' !! i = Some (do_update now v r).
Proof.
  induction vs as [| v0 vs IH];
    intros rs seq touched count seq' rs' n H v i r Hin L C; [easy |].
  assert (Cr : existsb (conflicts v) rs = true).
  { apply existsb_exists. exists r. split; [| exact C].
    apply list_elem_of_In. eapply list_elem_of_lookup_2. exact L. }
  simpl in H. destruct Hin as [-> | Hin].
  - rewrite Cr in H.
    destruct (existsb _ touched); [discriminate |].
    eapply upsert_games_touched_fixed in H; [exact H | |].
    + rewrite lookup_map, L. simpl. now rewrite C.
    + apply conflicts_key in C as [E N]. simpl. rewrite E.
      unfold sql_eq. rewrite N. simpl. now rewrite bool_decide_eq_true_2.
  - destruct (existsb (conflicts v0) rs) eqn:C0.
    + destruct (existsb (fun k => sql_eq k (gv_game_id v0)) touched); [discriminate |].
      destruct (conflicts v0 r) eqn:C0r.
      * exfalso.
        destruct (upsert_games_refuses now vs v Hin
                    (map (fun r => if conflicts v0 r then do_update now v0 r else r) rs)
                    (seq + 1) (gv_game_id v0 :: touched) (count + 1))
          as (s & e & F).
        -- now rewrite existsb_conflicts_map.
        -- apply conflicts_key in C as [E N]. apply conflicts_key in C0r as [E0 _].
           simpl. rewrite <- E, E0. unfold sql_eq.
           rewrite <- E0, E, N. simpl. now rewrite bool_decide_eq_true_2.
        -- congruence.
      * eapply IH in H; [exact H | exact Hin | | exact C].
        rewrite lookup_map, L. simpl. now rewrite C0r.
    + destruct (existsb (fun r => g_id r =? seq) rs); [discriminate |].
      eapply IH in H; [exact H | exact Hin | | exact C].
      now apply lookup_app_l_Some.
Qed.

Lemma ids_below_no_clash (rs : list game_row) (seq : Z) :
  forallb (fun r => g_id r <? seq) rs = true ->
  existsb (fun r => g_id r =? seq) rs = false.
Proof.
  induction rs as [| r rs IH]; [reflexivity |].
  simpl. intros H. apply andb_prop in H as [Hr Hrs].
  rewrite (IH Hrs), orb_false_r. apply Z.ltb_lt in Hr. apply Z.eqb_neq. lia.
Qed.

Lemma ids_below_step (rs : list game_row) (seq : Z) :
  forallb (fun r => g_id r <? seq) rs = true ->
  forallb (fun r => g_id r <? seq + 1) rs = true.
Proof.
  induction rs as [| r rs IH]; [reflexivity |].
  simpl. intros H. apply andb_prop in H as [Hr Hrs].
  rewrite (IH Hrs), andb_true_r. apply Z.ltb_lt in Hr. apply Z.ltb_lt. lia.
Qed.

Lemma ids_below_map (now : Z) (v : game_values) (rs : list game_row) (seq : Z) :
  forallb (fun r => g_id r <? seq)
    (map (fun r => if conflicts v r then do_update now v r else r) rs)
  = forallb (fun r => g_id r <? seq) rs.
Proof.
  induction rs as [| r rs IH]; [reflexivity |].
  simpl. rewrite IH. now destruct (conflicts v r).
Qed.

(** A batch without a repeated identifier, against a table whose
    sequence is ahead of its identifiers, is accepted. *)
Lemma upsert_games_succeeds (now : Z) (vs : list game_values) :
  forall rs seq touched count,
    distinct_ids vs = true ->
    forallb (fun r => g_id r <? seq) rs = true ->
    (forall v, In v vs -> existsb (fun k => sql_eq k (gv_game_id v)) touched = false) ->
    exists rs' n,
      upsert_games now vs rs seq touched count
      = (seq + Z.of_nat (length vs), Ok (rs', n)).
Proof.
  induction vs as [| v vs IH]; intros rs seq touched count D B T.
  - exists rs, count. simpl. now rewrite Z.add_0_r.
  - simpl in D. apply andb_prop in D as [Dv D]. apply negb_true_iff in Dv.
    assert (T' : forall v', In v' vs ->
               existsb (fun k => sql_eq k (gv_game_id v')) (gv_game_id v :: touched) = false).
    { intros v' Hin. simpl. rewrite (T v' (or_intror Hin)), orb_false_r.
      destruct (sql_eq (gv_game_id v) (gv_game_id v')) eqn:E; [| reflexivity].
      assert (X : existsb (fun v' => sql_eq (gv_game_id v) (gv_game_id v')) vs = true)
        by (apply existsb_exists; now exists v').
      congruence. }
    replace (seq + Z.of_nat (length (v :: vs))) with (seq + 1 + Z.of_nat (length vs))
      by (simpl length; lia).
    simpl. rewrite (T v (or_introl eq_refl)).
    destruct (existsb (conflicts v) rs).
    + apply IH; [exact D | | exact T'].
      rewrite ids_below_map. now apply ids_below_step.
    + rewrite (ids_below_no_clash rs seq B).
      apply IH; [exact D | | exact T'].
      rewrite forallb_app. rewrite (ids_below_step rs seq B). simpl.
      rewrite andb_true_r. apply Z.ltb_lt. lia.
Qed.

Lemma paginate_from_one_page {A} (page_size : nat) (seq : list A) :
  forall room page,
    (length seq <= room)%nat ->
    page ++ seq <> [] ->
    paginate_from page_size room page seq = [rev page ++ seq].
Proof.
  induction seq as [| x seq IH]; intros room page L N.
  - simpl. rewrite app_nil_r in *. now destruct page.
  - simpl in L. destruct room as [| [| r]]; [lia | |].
    + destruct seq; [| simpl in L; lia]. reflexivity.
    + cbn [paginate_from]. rewrite IH; [| lia | now destruct seq].
      simpl. now rewrite <- app_assoc.
Qed.

Lemma paginate_one_page {A} (seq : list A) :
  seq <> [] -> (length seq <= 100)%nat -> paginate 100 seq = [seq].
Proof.
  intros N L. unfold paginate. now rewrite paginate_from_one_page.
Qed.

Lemma games_kept_refl (rs : list game_row) : games_kept rs rs.
Proof. intros i r L. exists r. split; [exact L | apply same_fixed_columns_refl]. Qed.

Lemma games_kept_trans (rs1 rs2 rs3 : list game_row) :
  games_kept rs1 rs2 -> games_kept rs2 rs3 -> games_kept rs1 rs3.
Proof.
  intros H1 H2 i r L.
  destruct (H1 i r L) as (r2 & L2 & S2). destruct (H2 i r2 L2) as (r3 & L3 & S3).
  exists r3. split; [exact L3 | eapply same_fixed_columns_trans; eassumption].
Qed.

Lemma run_upsert_kept (now : Z) (vs : list game_values) (db db' : database)
    (r : result Z) :
  run_statement now (UpsertGames vs) db = (db', r) ->
  games_kept (rows (nfl_games db)) (rows (nfl_games db')).
Proof.
  unfold run_statement.
  destruct (table_ready _ _ _).
  { intros H. inversion H. apply games_kept_refl. }
  destruct (upsert_games _ _ _ _ _ _) as [seq' [[rs' n] | e]] eqn:U;
    intros H; inversion H; subst; cbn [nfl_games rows].
  - intros i row L. eapply upsert_games_frame; eassumption.
  - apply games_kept_refl.
Qed.

Lemma execute_upsert_pages_kept (P : platform) (pages : list (list game)) :
  forall rowcount w work now w1 n,
    w_conn w = Some (work, now) ->
    execute_pages (game_input P) UpsertGames pages rowcount w = (w1, Ok n) ->
    exists work1,
      w_conn w1 = Some (work1, now)
      /\ games_kept (rows (nfl_games work)) (rows (nfl_games work1))
      /\ w_db w1 = w_db w.
Proof.
  induction pages as [| page pages IH]; intros rowcount w work now w1 n C H.
  - inversion H; subst. exists work. repeat split; [exact C | apply games_kept_refl].
  - cbn [execute_pages] in H.
    destruct (all_some (game_input P) page) as [vs |].
    2: { unfold abort in H. rewrite C in H. discriminate. }
    apply bind_ok in H as (w' & n' & E & H).
    apply execute_ok in E as (k & t & work' & C' & R & ->).
    rewrite C in C'. inversion C'; subst k t; clear C'.
    eapply IH in H as (work1 & C1 & K & D); [| reflexivity].
    exists work1. repeat split; [exact C1 | | exact D].
    eapply games_kept_trans; [| exact K].
    eapply run_upsert_kept. exact R.
Qed.

Lemma populate_games_body_ok_kept (P : platform) (season : Z) (week : option Z)
    (w w1 : world) :
  populate_games_body P season week w = (w1, Ok tt) ->
  games_kept (rows (nfl_games (w_db w))) (rows (nfl_games (w_db w1))).
Proof.
  unfold populate_games_body, bind, requests_get.
  set (w0 := World (w_db w) (w_conn w) (w_clock w) _).
  destruct (http_get P _ _) as [e0 | code body]; [discriminate |].
  destruct (negb (code =? 200)).
  { intros H. inversion H. apply games_kept_refl. }
  unfold lift. destruct body as [data | e0]; [| discriminate].
  destruct (parse_games P season week data) as [games | e0]; [| discriminate].
  destruct games as [| g games].
  { intros H. inversion H. apply games_kept_refl. }
  destruct (get_db_connection P w0) as [w2 [conn | e2]] eqn:G; [| discriminate].
  apply get_db_connection_ok in G as (dsn & _ & _ & _ & ->).
  unfold execute_values.
  destruct (execute_pages _ _ _ _ _) as [w3 [n | e3]] eqn:X; [| discriminate].
  eapply execute_upsert_pages_kept in X as (work1 & C1 & K & D); [| reflexivity].
  unfold commit. rewrite C1. unfold print, emit, close.
  cbn [w_db w_conn w_clock w_trace]. rewrite rolled_back_id.
  intros H. inversion H. exact K.
Qed.

Lemma populate_games_kept (P : platform) (season : Z) (week : option Z) (w : world) :
  games_kept (rows (nfl_games (w_db w)))
    (rows (nfl_games (w_db (fst (populate_games P season week w))))).
Proof.
  unfold populate_games, try_except.
  destruct (populate_games_body P season week w) as [w1 [[] | e]] eqn:B.
  - now apply populate_games_body_ok_kept in B.
  - apply populate_games_body_raise_keeps in B as (_ & _ & R).
    cbn [print emit fst w_db]. rewrite R. apply games_kept_refl.
Qed.

(** What [populate_games] does with a batch of at most a hundred games
    that the server accepts. *)
Lemma populate_games_upserts (P : platform) (season : Z) (week : option Z) (w : world)
    (data : pyval) (games : list game) (vs : list game_values) (dsn : string) :
  http_get P (length (requests_of (w_trace w))) (scoreboard_url season week)
  = HttpResponse 200 (Ok data) ->
  parse_games P season week data = Ok games ->
  games <> [] ->
  (length games <= 100)%nat ->
  all_some (game_input P) games = Some vs ->
  getenv_DATABASE_URL P = Some dsn ->
  dsn <> ""%string ->
  connect_error P dsn = None ->
  catalog (w_db w) !! "nfl_games" = Some nfl_games_def ->
  distinct_ids vs = true ->
  games_sequence_ahead (nfl_games (w_db w)) = true ->
  exists rs' n,
    upsert_games (w_clock w) vs (rows (nfl_games (w_db w)))
      (next_id (nfl_games (w_db w))) [] 0
    = (next_id (nfl_games (w_db w)) + Z.of_nat (length vs), Ok (rs', n))
    /\ populate_games P season week w
       = (World
            (Database (catalog (w_db w)) (nfl_teams (w_db w))
               (Table rs' (next_id (nfl_games (w_db w)) + Z.of_nat (length vs))))
            None (w_clock w + 1)
            (w_trace w
             ++ [EvHttpGet (scoreboard_url season week);
                 EvConnect dsn;
                 EvExecute (UpsertGames vs);
                 EvCommit;
                 EvPrint ("Inserted/updated " +:+ str_int (Z.of_nat (length games))
                          +:+ " games");
                 EvClose]),
          Ok tt).
Proof.
  intros Hhttp Hparse Hne Hlen Hin Henv Hdsn Hcon Hcat Hdist Hseq.
  destruct (upsert_games_succeeds (w_clock w) vs (rows (nfl_games (w_db w)))
              (next_id (nfl_games (w_db w))) [] 0 Hdist Hseq (fun _ _ => eq_refl))
    as (rs' & n & U).
  exists rs', n. split; [exact U |].
  unfold populate_games, try_except, populate_games_body, bind, requests_get.
  rewrite Hhttp. cbn [Z.eqb Pos.eqb negb lift]. rewrite Hparse.
  destruct games as [| g games]; [easy |].
  unfold get_db_connection. rewrite Henv.
  destruct (String.eqb_spec dsn "") as [-> | _]; [easy |]. cbn [negb].
  unfold psycopg2_connect. rewrite Hcon.
  unfold execute_values. rewrite (paginate_one_page (g :: games) Hne Hlen).
  cbn [execute_pages]. rewrite Hin.
  unfold bind, execute. cbn [w_db w_conn w_clock w_trace].
  unfold run_statement, table_ready. rewrite Hcat.
  rewrite bool_decide_eq_true_2 by reflexivity. rewrite U.
  unfold ret, commit, print, emit, close. cbn [w_db w_conn w_clock w_trace].
  rewrite rolled_back_id. repeat rewrite <- app_assoc. reflexivity.
Qed.

(** C1: [populate_games] leaves every row of [nfl_games] that was there
    in its place and with its id, game_id, season, week, game_date,
    home_team, away_team and created_at as they were, whatever the
    response and whatever the outcome.  When a batch of at most a hundred
    games is accepted, a row whose game_id is that of a tuple of the batch
    takes home_score, away_score and status from the tuple and the time
    of the transaction as updated_at, and nothing else. *)
Theorem upsert_overwrites_scores_and_status_only (P : platform) (season : Z)
    (week : option Z) (w : world) (i : nat) (r : game_row) :
  rows (nfl_games (w_db w)) !! i = Some r ->
  (exists r',
     rows (nfl_games (w_db (fst (populate_games P season week w)))) !! i = Some r'
     /\ same_fixed_columns r r')
  /\ (forall data games vs dsn v,
        http_get P (length (requests_of (w_trace w))) (scoreboard_url season week)
        = HttpResponse 200 (Ok data) ->
        parse_games P season week data = Ok games ->
        games <> [] ->
        (length games <= 100)%nat ->
        all_some (game_input P) games = Some vs ->
        getenv_DATABASE_URL P = Some dsn ->
        dsn <> ""%string ->
        connect_error P dsn = None ->
        catalog (w_db w) !! "nfl_games" = Some nfl_games_def ->
        distinct_ids vs = true ->
        games_sequence_ahead (nfl_games (w_db w)) = true ->
        In v vs ->
        conflicts v r = true ->
        rows (nfl_games (w_db (fst (populate_games P season week w)))) !! i
        = Some (GameRow (g_id r) (g_game_id r) (g_season r) (g_week r) (g_game_date r)
                  (g_home_team r) (g_away_team r)
                  (gv_home_score v) (gv_away_score v) (gv_status v)
                  (g_created_at r) (w_clock w))).
Proof.
  intros L. split; [now apply populate_games_kept |].
  intros data games vs dsn v Hhttp Hparse Hne Hlen Hin Henv Hdsn Hcon Hcat Hdist Hseq
    Hv Hc.
  destruct (populate_games_upserts P season week w data games vs dsn
              Hhttp Hparse Hne Hlen Hin Henv Hdsn Hcon Hcat Hdist Hseq)
    as (rs' & n & U & E).
  rewrite E. cbn [fst w_db nfl_games rows].
  exact (upsert_games_overwrites _ _ _ _ _ _ _ _ _ U v i r Hv L Hc).
Qed.

(** The game 402, stored at its first fetch as CCC against DDD on
    2025-09-08 in week 1, is fetched again for week 2 with a final score,
    another date and the sides exchanged: the row takes the scores and
    the status, and keeps the rest. *)
Lemma upsert_overwrites_scores_and_status_only_witness :
  rows (nfl_games (w_db seeded_world)) !! 1%nat
  = Some (GameRow 2 (VText "402") (VInt 2025) (VInt 1) (VDate "2025-09-08")
            (VText "CCC") (VText "DDD") (VInt 0) (VInt 0) (VText "scheduled") 1 1)
  /\ rows (nfl_games
             (w_db (fst (populate_games
                           (sample_platform (Some sample_dsn)
                              (HttpResponse 200 (Ok refetched_scoreboard)))
                           2025 (Some 2) seeded_world)))) !! 1%nat
     = Some (GameRow 2 (VText "402") (VInt 2025) (VInt 1) (VDate "2025-09-08")
               (VText "CCC") (VText "DDD") (VInt 21) (VInt 17) (VText "final") 1 2).
Proof.
  split; [reflexivity |].
  refine (proj2 (upsert_overwrites_scores_and_status_only
                   (sample_platform (Some sample_dsn)
                      (HttpResponse 200 (Ok refetched_scoreboard)))
                   2025 (Some 2) seeded_world 1%nat
                   (GameRow 2 (VText "402") (VInt 2025) (VInt 1) (VDate "2025-09-08")
                      (VText "CCC") (VText "DDD") (VInt 0) (VInt 0) (VText "scheduled")
                      1 1)
                   eq_refl)
            refetched_scoreboard
            [Game (JStr "402") (JInt 2025) (JInt 2) (JStr "2025-09-09")
               (JStr "DDD") (JStr "CCC") (JInt 21) (JInt 17) (JStr "final")]
            [GameValues (VText "402") (VInt 2025) (VInt 2) (VDate "2025-09-09")
               (VText "DDD") (VText "CCC") (VInt 21) (VInt 17) (VText "final")]
            sample_dsn
            (GameValues (VText "402") (VInt 2025) (VInt 2) (VDate "2025-09-09")
               (VText "DDD") (VText "CCC") (VInt 21) (VInt 17) (VText "final"))
            _ _ _ _ _ _ _ _ _ _ _ _ _);
    try reflexivity; try discriminate.
  - simpl. lia.
  - now left.
Defined.

(** ** The insert of teams *)

Lemma team_ids_below_no_clash (rs : list team_row) (seq : Z) :
  forallb (fun r => t_id r <? seq) rs = true ->
  existsb (fun r => t_id r =? seq) rs = false.
Proof.
  induction rs as [| r rs IH]; [reflexivity |].
  simpl. intros H. apply andb_prop in H as [Hr Hrs].
  rewrite (IH Hrs), orb_false_r. apply Z.ltb_lt in Hr. apply Z.eqb_neq. lia.
Qed.

Lemma team_ids_below_step (rs : list team_row) (seq : Z) :
  forallb (fun r => t_id r <? seq) rs = true ->
  forallb (fun r => t_id r <? seq + 1) rs = true.
Proof.
  induction rs as [| r rs IH]; [reflexivity |].
  simpl. intros H. apply andb_prop in H as [Hr Hrs].
  rewrite (IH Hrs), andb_true_r. apply Z.ltb_lt in Hr. apply Z.ltb_lt. lia.
Qed.

Lemma new_batch_after (rs : list team_row) (r : team_row) (vs : list team_values) :
  new_batch rs vs = true ->
  existsb (fun v' => sql_eq (t_team_abbr r) (tv_team_abbr v')) vs = false ->
  new_batch (rs ++ [r]) vs = true.
Proof.
  induction vs as [| v vs IH]; [reflexivity |].
  simpl. intros H E.
  apply andb_prop in H as [H Hrest]. apply andb_prop in H as [H Hd].
  apply andb_prop in H as [Hn Hrs].
  apply orb_false_elim in E as [Ev E].
  rewrite Hn, Hd, (IH Hrest E). unfold has_abbr in *.
  rewrite existsb_app. apply negb_true_iff in Hrs. rewrite Hrs. simpl.
  now rewrite Ev.
Qed.

(** Tuples that are all new are all inserted. *)
Lemma insert_teams_new (now : Z) (vs : list team_values) :
  forall rs seq count,
    new_batch rs vs = true ->
    forallb (fun r => t_id r <? seq) rs = true ->
    insert_teams now vs rs seq count
    = (seq + Z.of_nat (length vs),
       Ok (rs ++ numbered now seq vs, count + Z.of_nat (length vs))).
Proof.
  induction vs as [| v vs IH]; intros rs seq count N B.
  - simpl. now rewrite app_nil_r, !Z.add_0_r.
  - simpl in N.
    apply andb_prop in N as [N Nrest]. apply andb_prop in N as [N Nd].
    apply andb_prop in N as [Nn Nrs].
    unfold named in Nn. apply negb_true_iff in Nn, Nrs, Nd. unfold has_abbr in Nrs.
    cbn [insert_teams]. rewrite Nn, Nrs, (team_ids_below_no_clash rs seq B).
    rewrite IH.
    + f_equal; [simpl length; lia |]. f_equal. f_equal.
      * now rewrite <- app_assoc.
      * simpl length. lia.
    + apply new_batch_after; [exact Nrest | exact Nd].
    + rewrite forallb_app, (team_ids_below_step rs seq B). simpl.
      rewrite andb_true_r. apply Z.ltb_lt. lia.
Qed.

(** Tuples that are all in the table are all passed over. *)
Lemma insert_teams_present (now : Z) (vs : list team_values) :
  forall rs seq count,
    all_present rs vs = true ->
    insert_teams now vs rs seq count = (seq + Z.of_nat (length vs), Ok (rs, count)).
Proof.
  induction vs as [| v vs IH]; intros rs seq count A.
  - simpl. now rewrite Z.add_0_r.
  - simpl in A. apply andb_prop in A as [A Arest]. apply andb_prop in A as [An Ap].
    unfold named in An. apply negb_true_iff in An. unfold has_abbr in Ap.
    cbn [insert_teams]. rewrite An, Ap, (IH _ _ _ Arest).
    f_equal. simpl length. lia.
Qed.

Lemma insert_teams_extends (now : Z) (vs : list team_values) :
  forall rs seq count seq' rs' n,
    insert_teams now vs rs seq count = (seq', Ok (rs', n)) ->
    exists added, rs' = rs ++ added.
Proof.
  induction vs as [| v vs IH]; intros rs seq count seq' rs' n H; simpl in H.
  - inversion H. exists []. now rewrite app_nil_r.
  - destruct (is_null _ || is_null _); [discriminate |].
    destruct (existsb (fun r => sql_eq (t_team_abbr r) (tv_team_abbr v)) rs).
    + eapply IH. exact H.
    + destruct (existsb (fun r => t_id r =? seq) rs); [discriminate |].
      apply IH in H as (added & ->). exists (new_team seq now v :: added).
      now rewrite <- app_assoc.
Qed.

(** After an insert that succeeded, every tuple of the batch is in the
    table. *)
Lemma insert_teams_ok_present (now : Z) (vs : list team_values) :
  forall rs seq count seq' rs' n,
    insert_teams now vs rs seq count = (seq', Ok (rs', n)) ->
    all_present rs' vs = true.
Proof.
  induction vs as [| v vs IH]; intros rs seq count seq' rs' n H; [reflexivity |].
  simpl in H. cbn [all_present forallb]. unfold named.
  destruct (is_null (tv_team_name v) || is_null (tv_team_abbr v)) eqn:Nn;
    [discriminate |].
  cbn [negb andb].
  destruct (existsb (fun r => sql_eq (t_team_abbr r) (tv_team_abbr v)) rs) eqn:Ep.
  - pose proof (insert_teams_extends _ _ _ _ _ _ _ _ H) as (added & ->).
    unfold has_abbr. rewrite existsb_app, Ep. cbn [orb andb].
    eapply IH. exact H.
  - destruct (existsb (fun r => t_id r =? seq) rs); [discriminate |].
    pose proof (insert_teams_extends _ _ _ _ _ _ _ _ H) as (added & ->).
    unfold has_abbr. rewrite !existsb_app. cbn [existsb t_team_abbr new_team].
    apply orb_false_elim in Nn as [_ Na].
    unfold sql_eq at 2. rewrite Na, bool_decide_eq_true_2 by reflexivity.
    cbn [negb andb orb]. rewrite orb_true_r. cbn [orb andb].
    eapply IH. exact H.
Qed.

Lemma seed_values_new : new_batch [] seed_values = true.
Proof. reflexivity. Qed.

Lemma numbered_length (now seq : Z) (vs : list team_values) :
  length (numbered now seq vs) = length vs.
Proof.
  revert seq. induction vs as [| v vs IH]; intros seq; [reflexivity |].
  simpl. now rewrite IH.
Qed.

Lemma numbered_abbrs (now seq : Z) (vs : list team_values) :
  map t_team_abbr (numbered now seq vs) = map tv_team_abbr vs.
Proof.
  revert seq. induction vs as [| v vs IH]; intros seq; [reflexivity |].
  simpl. now rewrite IH.
Qed.

(** [populate_teams] with a connection at hand and a statement that is
    accepted. *)
Lemma populate_teams_run (P : platform) (w : world) (dsn : string) (work : database)
    (rowcount : Z) :
  getenv_DATABASE_URL P = Some dsn ->
  dsn <> ""%string ->
  connect_error P dsn = None ->
  run_statement (w_clock w) (InsertTeams seed_values) (w_db w) = (work, Ok rowcount) ->
  populate_teams P w
  = (World work None (w_clock w + 1) (w_trace w ++ populate_teams_trace dsn rowcount),
     Ok tt).
Proof.
  intros Henv Hdsn Hcon R.
  unfold populate_teams, execute_values. rewrite teams_one_page.
  cbn [execute_pages]. rewrite seed_values_input.
  unfold bind, get_db_connection. rewrite Henv.
  destruct (String.eqb_spec dsn "") as [-> | _]; [easy |]. cbn [negb].
  unfold psycopg2_connect. rewrite Hcon.
  unfold execute. cbn [w_db w_conn w_clock w_trace]. rewrite R.
  unfold ret, commit, print, emit, close. cbn [w_db w_conn w_clock w_trace].
  rewrite rolled_back_id. unfold populate_teams_trace.
  repeat rewrite <- app_assoc. reflexivity.
Qed.

(** C5: [teams] has 32 entries and [populate_teams] inserts them with
    [ON CONFLICT (team_abbr) DO NOTHING].  With the connection at hand
    and [nfl_teams] as [create_tables] defines it: on an empty table the
    run returns normally, leaves exactly the 32 teams and reports 32
    rows; and a run that follows a run that returned normally returns
    normally too, leaves the rows as they are, 32 and not 64, and
    reports 0 rows. *)
Theorem seeding_twice_leaves_32_teams (P : platform) (w : world) (dsn : string) :
  getenv_DATABASE_URL P = Some dsn ->
  dsn <> ""%string ->
  connect_error P dsn = None ->
  catalog (w_db w) !! "nfl_teams" = Some nfl_teams_def ->
  length teams = 32%nat
  /\ (rows (nfl_teams (w_db w)) = [] ->
      exists w1,
        populate_teams P w = (w1, Ok tt)
        /\ rows (nfl_teams (w_db w1))
           = numbered (w_clock w) (next_id (nfl_teams (w_db w))) seed_values
        /\ length (rows (nfl_teams (w_db w1))) = 32%nat
        /\ w_trace w1 = w_trace w ++ populate_teams_trace dsn 32)
  /\ (forall w1,
        populate_teams P w = (w1, Ok tt) ->
        exists w2,
          populate_teams P w1 = (w2, Ok tt)
          /\ rows (nfl_teams (w_db w2)) = rows (nfl_teams (w_db w1))
          /\ w_trace w2 = w_trace w1 ++ populate_teams_trace dsn 0).
Proof.
  intros Henv Hdsn Hcon Hcat. split; [reflexivity |]. split.
  - intros Hempty.
    eexists. split; [| split; [| split]].
    + apply (populate_teams_run P w dsn); [exact Henv | exact Hdsn | exact Hcon |].
      unfold run_statement, table_ready. rewrite Hcat.
      rewrite bool_decide_eq_true_2 by reflexivity.
      rewrite Hempty.
      rewrite (insert_teams_new (w_clock w) seed_values [] _ 0 seed_values_new eq_refl).
      reflexivity.
    + reflexivity.
    + cbn [w_db nfl_teams rows app]. now rewrite numbered_length.
    + reflexivity.
  - intros w1 H1.
    apply populate_teams_ok in H1 as (dsn' & work & n & _ & _ & _ & R & ->).
    unfold run_statement, table_ready in R. rewrite Hcat in R.
    rewrite bool_decide_eq_true_2 in R by reflexivity.
    destruct (insert_teams _ _ _ _ _) as [seq' [[rs' n'] | e]] eqn:I;
      inversion R; subst work n'; clear R.
    apply insert_teams_ok_present in I.
    eexists. split; [| split].
    + apply (populate_teams_run P _ dsn); [exact Henv | exact Hdsn | exact Hcon |].
      unfold run_statement, table_ready. cbn [w_db w_clock catalog nfl_teams rows next_id].
      rewrite Hcat. rewrite bool_decide_eq_true_2 by reflexivity.
      rewrite (insert_teams_present _ seed_values rs' seq' 0 I). reflexivity.
    + reflexivity.
    + reflexivity.
Qed.

Lemma seeding_twice_leaves_32_teams_witness :
  exists w1 w2,
    populate_teams (sample_platform (Some sample_dsn) (HttpFailed IndexError))
      (fst (create_tables (sample_platform (Some sample_dsn) (HttpFailed IndexError))
              fresh_world))
    = (w1, Ok tt)
    /\ populate_teams (sample_platform (Some sample_dsn) (HttpFailed IndexError)) w1
       = (w2, Ok tt)
    /\ length (rows (nfl_teams (w_db w1))) = 32%nat
    /\ length (rows (nfl_teams (w_db w2))) = 32%nat.
Proof.
  destruct (seeding_twice_leaves_32_teams
              (sample_platform (Some sample_dsn) (HttpFailed IndexError))
              (fst (create_tables (sample_platform (Some sample_dsn) (HttpFailed IndexError))
                      fresh_world))
              sample_dsn)
    as (_ & A & B); [reflexivity | discriminate | reflexivity | reflexivity |].
  destruct (A eq_refl) as (w1 & E1 & _ & L1 & _).
  destruct (B w1 E1) as (w2 & E2 & R2 & _).
  exists w1, w2. rewrite R2. now repeat split.
Defined.

(** ** [create_tables] *)

Lemma create_table_present (name : string) (def d : table_def) (db : database) :
  catalog db !! name = Some d ->
  create_table_if_not_exists name def db = Ok db.
Proof. unfold create_table_if_not_exists. now intros ->. Qed.

Lemma create_table_ok (name : string) (def : table_def) (db db' : database) :
  create_table_if_not_exists name def db = Ok db' ->
  is_Some (catalog db' !! name)
  /\ forall other d, catalog db !! other = Some d -> catalog db' !! other = Some d.
Proof.
  unfold create_table_if_not_exists.
  destruct (catalog db !! name) as [d0 |] eqn:L.
  - intros H. inversion H; subst. split; [now exists d0 | auto].
  - destruct (forallb _ _); [| discriminate].
    intros H. inversion H; subst. cbn [catalog new_storage]. split.
    + exists def. apply lookup_insert_eq.
    + intros other d Lo. rewrite lookup_insert_ne; [exact Lo | congruence].
Qed.

(** [create_tables] with a connection at hand and four statements
    that are accepted. *)
Lemma create_tables_run (P : platform) (w : world) (dsn : string)
    (db1 db2 db3 db4 : database) :
  getenv_DATABASE_URL P = Some dsn ->
  dsn <> ""%string ->
  connect_error P dsn = None ->
  create_table_if_not_exists "nfl_teams" nfl_teams_def (w_db w) = Ok db1 ->
  create_table_if_not_exists "nfl_games" nfl_games_def db1 = Ok db2 ->
  create_table_if_not_exists "nfl_players" nfl_players_def db2 = Ok db3 ->
  create_table_if_not_exists "nfl_player_stats" nfl_player_stats_def db3 = Ok db4 ->
  create_tables P w
  = (World db4 None (w_clock w + 1) (w_trace w ++ create_tables_trace dsn), Ok tt).
Proof.
  intros Henv Hdsn Hcon E1 E2 E3 E4.
  unfold create_tables, bind, get_db_connection. rewrite Henv.
  destruct (String.eqb_spec dsn "") as [-> | _]; [easy |]. cbn [negb].
  unfold psycopg2_connect. rewrite Hcon.
  unfold execute, run_statement. cbn [w_db w_conn w_clock w_trace].
  rewrite E1. cbn [w_db w_conn w_clock w_trace].
  rewrite E2. cbn [w_db w_conn w_clock w_trace].
  rewrite E3. cbn [w_db w_conn w_clock w_trace].
  rewrite E4. cbn [w_db w_conn w_clock w_trace].
  unfold commit, close, print, emit. cbn [w_db w_conn w_clock w_trace].
  rewrite rolled_back_id. unfold create_tables_trace.
  repeat rewrite <- app_assoc. reflexivity.
Qed.

Lemma create_tables_again (P : platform) (w : world) (dsn : string) :
  getenv_DATABASE_URL P = Some dsn ->
  dsn <> ""%string ->
  connect_error P dsn = None ->
  is_Some (catalog (w_db w) !! "nfl_teams") ->
  is_Some (catalog (w_db w) !! "nfl_games") ->
  is_Some (catalog (w_db w) !! "nfl_players") ->
  is_Some (catalog (w_db w) !! "nfl_player_stats") ->
  create_tables P w
  = (World (w_db w) None (w_clock w + 1) (w_trace w ++ create_tables_trace dsn), Ok tt).
Proof.
  intros Henv Hdsn Hcon [d1 L1] [d2 L2] [d3 L3] [d4 L4].
  apply (create_tables_run P w dsn (w_db w) (w_db w) (w_db w) (w_db w));
    try assumption; eapply create_table_present; eassumption.
Qed.

Lemma create_tables_repeat (P : platform) (dsn : string) (n : nat) :
  getenv_DATABASE_URL P = Some dsn ->
  dsn <> ""%string ->
  connect_error P dsn = None ->
  forall w,
    is_Some (catalog (w_db w) !! "nfl_teams") ->
    is_Some (catalog (w_db w) !! "nfl_games") ->
    is_Some (catalog (w_db w) !! "nfl_players") ->
    is_Some (catalog (w_db w) !! "nfl_player_stats") ->
    exists wn, repeat_run n (create_tables P) w = (wn, Ok tt) /\ w_db wn = w_db w.
Proof.
  intros Henv Hdsn Hcon.
  induction n as [| n IH]; intros w L1 L2 L3 L4.
  - now exists w.
  - cbn [repeat_run]. unfold bind.
    rewrite (create_tables_again P w dsn Henv Hdsn Hcon L1 L2 L3 L4).
    apply (IH (World (w_db w) None (w_clock w + 1)
                 (w_trace w ++ create_tables_trace dsn))); assumption.
Qed.

(** C7: with the connection at hand, [create_tables] on a database
    without the four tables returns normally and adds their four
    definitions; a run that returns normally has left every definition
    it found as it was; and after it, any number of further runs return
    normally and leave the whole database, definitions and rows, as it
    is. *)
Theorem create_tables_idempotent (P : platform) (w : world) (dsn : string) :
  getenv_DATABASE_URL P = Some dsn ->
  dsn <> ""%string ->
  connect_error P dsn = None ->
  (catalog (w_db w) !! "nfl_teams" = None ->
   catalog (w_db w) !! "nfl_games" = None ->
   catalog (w_db w) !! "nfl_players" = None ->
   catalog (w_db w) !! "nfl_player_stats" = None ->
   exists w1,
     create_tables P w = (w1, Ok tt)
     /\ catalog (w_db w1) = with_script_tables (catalog (w_db w)))
  /\ (forall w1,
        create_tables P w = (w1, Ok tt) ->
        (forall name d,
           catalog (w_db w) !! name = Some d -> catalog (w_db w1) !! name = Some d)
        /\ forall n, exists wn,
             repeat_run n (create_tables P) w1 = (wn, Ok tt) /\ w_db wn = w_db w1).
Proof.
  intros Henv Hdsn Hcon. split.
  - intros N1 N2 N3 N4. eexists. split.
    + eapply (create_tables_run P w dsn); try eassumption.
      * unfold create_table_if_not_exists. rewrite N1. reflexivity.
      * unfold create_table_if_not_exists. cbn [catalog new_storage].
        rewrite lookup_insert_ne by discriminate. rewrite N2. reflexivity.
      * unfold create_table_if_not_exists. cbn [catalog new_storage].
        rewrite !lookup_insert_ne by discriminate. rewrite N3. reflexivity.
      * unfold create_table_if_not_exists. cbn [catalog new_storage].
        rewrite !lookup_insert_ne by discriminate. rewrite N4.
        cbn [td_foreign_keys nfl_player_stats_def forallb].
        unfold fk_ok. cbn [fk_table fk_ref].
        rewrite lookup_insert_eq.
        rewrite lookup_insert_ne by discriminate. rewrite lookup_insert_eq.
        reflexivity.
    + reflexivity.
  - intros w1 H.
    apply create_tables_ok in H
      as (dsn' & db1 & db2 & db3 & db4 & _ & _ & _ & E1 & E2 & E3 & E4 & ->).
    apply create_table_ok in E1 as [S1 K1]. apply create_table_ok in E2 as [S2 K2].
    apply create_table_ok in E3 as [S3 K3]. apply create_table_ok in E4 as [S4 K4].
    split.
    + intros name d L. cbn [w_db]. auto.
    + intros n. apply (create_tables_repeat P dsn n Henv Hdsn Hcon); cbn [w_db].
      * destruct S1 as [d L]. exists d. auto.
      * destruct S2 as [d L]. exists d. auto.
      * destruct S3 as [d L]. exists d. auto.
      * exact S4.
Qed.

Lemma create_tables_idempotent_witness :
  exists w1 w3,
    create_tables (sample_platform (Some sample_dsn) (HttpFailed IndexError)) fresh_world
    = (w1, Ok tt)
    /\ repeat_run 2 (create_tables (sample_platform (Some sample_dsn) (HttpFailed IndexError)))
         w1
       = (w3, Ok tt)
    /\ w_db w3 = w_db w1
    /\ catalog (w_db w1) = with_script_tables ∅.
Proof.
  destruct (create_tables_idempotent
              (sample_platform (Some sample_dsn) (HttpFailed IndexError))
              fresh_world sample_dsn)
    as (A & B); [reflexivity | discriminate | reflexivity |].
  destruct A as (w1 & E1 & C1); try reflexivity.
  destruct (B w1 E1) as (_ & R).
  destruct (R 2%nat) as (w3 & E3 & D3).
  now exists w1, w3.
Defined.

(** ** The competitors of a game *)

Lemma competitor_step_info (P : platform) (s : sides) (c : pyval) :
  competitor_step P s c
  = (info <-- competitor_info P c ;; Ok (set_side (is_home c) info s)).
Proof.
  destruct c as [| | | | | | d]; try reflexivity.
  unfold competitor_step, competitor_info, is_home, get. cbn [rbind].
  destruct (dict_lookup "homeAway" d) as [v |]; cbn [eq_str];
    [destruct (eq_str v "home") |];
    (destruct (dict_lookup "team" d) as [[| | | | | | t] |]; try reflexivity;
     cbn [rbind];
     destruct (int (int_other P)
                 match dict_lookup "score" d with Some v => v | None => JInt 0 end);
     reflexivity).
Qed.

Lemma competitor_step_ok (P : platform) (s s' : sides) (c : pyval) :
  competitor_step P s c = Ok s' ->
  exists info, competitor_info P c = Ok info /\ s' = set_side (is_home c) info s.
Proof.
  rewrite competitor_step_info.
  destruct (competitor_info P c) as [info | e]; [| discriminate].
  intros H. inversion H. now exists info.
Qed.

Lemma side_set_side_same (home : bool) (info : pyval * pyval) (s : sides) :
  side home (set_side home info s) = info.
Proof. now destruct home, info. Qed.

Lemma side_set_side_other (home : bool) (info : pyval * pyval) (s : sides) :
  side (negb home) (set_side home info s) = side (negb home) s.
Proof. now destruct home. Qed.

Lemma last_side_wins (P : platform) (home : bool) (cs : list pyval) :
  forall s0 s,
    rfold (competitor_step P) cs s0 = Ok s ->
    match last_side home cs with
    | Some c => competitor_info P c = Ok (side home s)
    | None => side home s = side home s0
    end.
Proof.
  induction cs as [| c cs IH]; intros s0 s H.
  - now inversion H.
  - cbn [rfold] in H.
    destruct (competitor_step P s0 c) as [s1 | e] eqn:E; [| discriminate].
    cbn [rbind] in H. specialize (IH s1 s H).
    apply competitor_step_ok in E as (info & I & ->).
    cbn [last_side]. destruct (last_side home cs) as [c' |]; [exact IH |].
    rewrite IH. destruct (is_home c), home; cbn [Bool.eqb].
    + now rewrite (side_set_side_same true).
    + apply (side_set_side_other true).
    + apply (side_set_side_other false).
    + now rewrite (side_set_side_same false).
Qed.

(** C9: a competitor whose [homeAway] is anything but the string
    "home", or that has none, sets the away team and the away score and
    leaves the home side alone; no value of [homeAway] is asked of the
    away side.  After the loop, each side is that of the last competitor
    of the list that fell on it, or [None] if there was none. *)
Theorem competitors_home_or_away (P : platform) :
  (forall s d,
     dict_lookup "homeAway" d <> Some (JStr "home") ->
     competitor_step P s (JObj d)
     = (info <-- competitor_info P (JObj d) ;;
        Ok (Sides (home_team s) (fst info) (home_score s) (snd info))))
  /\ (forall s d,
        dict_lookup "homeAway" d = Some (JStr "home") ->
        competitor_step P s (JObj d)
        = (info <-- competitor_info P (JObj d) ;;
           Ok (Sides (fst info) (away_team s) (snd info) (away_score s))))
  /\ (forall cs s,
        rfold (competitor_step P) cs no_sides = Ok s ->
        match last_side false cs with
        | Some c => competitor_info P c = Ok (away_team s, away_score s)
        | None => away_team s = JNull /\ away_score s = JNull
        end
        /\ match last_side true cs with
           | Some c => competitor_info P c = Ok (home_team s, home_score s)
           | None => home_team s = JNull /\ home_score s = JNull
           end).
Proof.
  split; [| split].
  - intros s d H. rewrite competitor_step_info.
    assert (E : is_home (JObj d) = false).
    { unfold is_home. destruct (dict_lookup "homeAway" d) as [v |]; [| reflexivity].
      destruct v as [| | | | h | |]; try reflexivity.
      cbn [eq_str]. destruct (String.eqb_spec h "home") as [-> | N]; [| reflexivity].
      now destruct H. }
    now rewrite E.
  - intros s d H. rewrite competitor_step_info.
    assert (E : is_home (JObj d) = true) by (unfold is_home; now rewrite H).
    now rewrite E.
  - intros cs s H. split.
    + pose proof (last_side_wins P false cs no_sides s H) as L.
      destruct (last_side false cs); [exact L |]. now inversion L.
    + pose proof (last_side_wins P true cs no_sides s H) as L.
      destruct (last_side true cs); [exact L |]. now inversion L.
Qed.

(** Three competitors without the flag "home": one says "away", one
    says "visitor", one says nothing; the last one is the away side, and
    there is no home side. *)
Lemma competitors_home_or_away_witness :
  rfold (competitor_step (sample_platform None (HttpFailed IndexError)))
    [competitor "away" "AAA" (Some "3");
     competitor "visitor" "BBB" (Some "14");
     JObj [("team", JObj [("abbreviation", JStr "CCC")]); ("score", JStr "21")]]
    no_sides
  = Ok (Sides JNull (JStr "CCC") JNull (JInt 21))
  /\ competitor_info (sample_platform None (HttpFailed IndexError))
       (JObj [("team", JObj [("abbreviation", JStr "CCC")]); ("score", JStr "21")])
     = Ok (JStr "CCC", JInt 21).
Proof.
  split; [reflexivity |].
  exact (proj1 (proj2 (proj2 (competitors_home_or_away
                                (sample_platform None (HttpFailed IndexError))))
                  [competitor "away" "AAA" (Some "3");
                   competitor "visitor" "BBB" (Some "14");
                   JObj [("team", JObj [("abbreviation", JStr "CCC")]);
                         ("score", JStr "21")]]
                  (Sides JNull (JStr "CCC") JNull (JInt 21))
                  eq_refl)).
Defined.

(** ** Defaults *)

(** C2: a competitor without [score] gets the integer 0 as the score of
    its side, and a competition whose path [status.type.name] is missing
    gets the status "scheduled".  The sample response, a final AAA 10 -
    BBB 7 and a game to come without scores and without status, is
    parsed to two tuples with the identifiers of the two events, 0 for
    the absent scores and "scheduled" for the absent status; upserted
    into the empty table they are its two rows. *)
Theorem defaults_of_score_and_status (P : platform) :
  (forall s d t,
     dict_lookup "score" d = None ->
     get (JObj d) "team" (JObj []) = Ok (JObj t) ->
     competitor_step P s (JObj d)
     = Ok (set_side (is_home (JObj d)) (dict_get "abbreviation" t, JInt 0) s))
  /\ (forall c,
        status_missing c = true ->
        competition_status (JObj c) = Ok (JStr "scheduled"))
  /\ parse_games P 2025 (Some 1) sample_scoreboard = Ok sample_games
  /\ (let SP := sample_platform (Some sample_dsn)
                  (HttpResponse 200 (Ok sample_scoreboard)) in
      rows (nfl_games
              (w_db (fst (populate_games SP 2025 (Some 1)
                            (fst (create_tables SP fresh_world))))))
      = sample_rows 1).
Proof.
  split; [| split; [| split]].
  - intros s d t Hs Ht. rewrite competitor_step_info.
    unfold competitor_info. rewrite Ht. cbn [rbind].
    unfold get, dict_get. cbn [rbind]. rewrite Hs. reflexivity.
  - intros c H. unfold status_missing in H. unfold competition_status, get.
    cbn [rbind].
    destruct (dict_lookup "status" c) as [[| | | | | | st] |]; try discriminate;
      [| reflexivity].
    cbn [rbind].
    destruct (dict_lookup "type" st) as [[| | | | | | ty] |]; try discriminate;
      [| reflexivity].
    cbn [rbind].
    now destruct (dict_lookup "name" ty).
  - reflexivity.
  - reflexivity.
Qed.

Lemma defaults_of_score_and_status_witness :
  competitor_step (sample_platform None (HttpFailed IndexError)) no_sides
    (competitor "home" "CCC" None)
  = Ok (Sides (JStr "CCC") JNull (JInt 0) JNull)
  /\ competition_status (JObj [("status", JObj [("type", JObj [])])])
     = Ok (JStr "scheduled").
Proof.
  split.
  - exact (proj1 (defaults_of_score_and_status
                    (sample_platform None (HttpFailed IndexError)))
             no_sides
             [("homeAway", JStr "home"); ("team", JObj [("abbreviation", JStr "CCC")])]
             [("abbreviation", JStr "CCC")]
             eq_refl eq_refl).
  - exact (proj1 (proj2 (defaults_of_score_and_status
                           (sample_platform None (HttpFailed IndexError))))
             [("status", JObj [("type", JObj [])])]
             eq_refl).
Defined.

(** ** [get_db_connection] *)

(** C6, as the script has it: without [DATABASE_URL], or with an empty
    one, [get_db_connection] raises the [ValueError] "DATABASE_URL
    environment variable not set" and touches nothing; [main] then ends
    with that error after its first two lines, before any connection,
    statement or request.  With a value that is not empty the outcome is
    that of [psycopg2.connect] on it: the connection, or the driver's
    error. *)
Theorem get_db_connection_needs_url (P : platform) (w : world) :
  (getenv_DATABASE_URL P = None \/ getenv_DATABASE_URL P = Some ""%string ->
   get_db_connection P w
   = (w, Raise (ValueError "DATABASE_URL environment variable not set"))
   /\ main P w
      = (World (w_db w) (w_conn w) (w_clock w)
           (w_trace w ++ [EvPrint "Starting NFL data population...";
                          EvPrint (nl +:+ "1. Creating tables...")]),
         Raise (ValueError "DATABASE_URL environment variable not set")))
  /\ (forall dsn,
        getenv_DATABASE_URL P = Some dsn ->
        dsn <> ""%string ->
        get_db_connection P w = psycopg2_connect P dsn w
        /\ (connect_error P dsn = None ->
            get_db_connection P w
            = (World (w_db w) (Some (w_db w, w_clock w)) (w_clock w + 1)
                 (w_trace w ++ [EvConnect dsn]),
               Ok (Connection dsn)))
        /\ (forall e,
              connect_error P dsn = Some e ->
              get_db_connection P w
              = (World (w_db w) (w_conn w) (w_clock w) (w_trace w ++ [EvConnect dsn]),
                 Raise (DatabaseError e)))).
Proof.
  split.
  - intros H.
    assert (G : forall w0, get_db_connection P w0
                = (w0, Raise (ValueError "DATABASE_URL environment variable not set"))).
    { intros w0. unfold get_db_connection. now destruct H as [-> | ->]. }
    split; [apply G |].
    unfold main, create_tables, bind, print, emit. rewrite G.
    cbn [w_db w_conn w_clock w_trace]. now rewrite <- app_assoc.
  - intros dsn Henv Hdsn.
    assert (G : get_db_connection P w = psycopg2_connect P dsn w).
    { unfold get_db_connection. rewrite Henv.
      now destruct (String.eqb_spec dsn "") as [-> | _]. }
    split; [exact G |]. rewrite G. unfold psycopg2_connect.
    split; [now intros -> | now intros e ->].
Qed.

Lemma get_db_connection_needs_url_witness :
  main (sample_platform None (HttpResponse 200 (Ok sample_scoreboard))) fresh_world
  = (World empty_database None 0
       [EvPrint "Starting NFL data population...";
        EvPrint (nl +:+ "1. Creating tables...")],
     Raise (ValueError "DATABASE_URL environment variable not set"))
  /\ get_db_connection
       (sample_platform (Some sample_dsn) (HttpResponse 200 (Ok sample_scoreboard)))
       fresh_world
     = (World empty_database (Some (empty_database, 0)) 1 [EvConnect sample_dsn],
        Ok (Connection sample_dsn)).
Proof.
  split.
  - exact (proj2 (proj1 (get_db_connection_needs_url
                           (sample_platform None (HttpResponse 200 (Ok sample_scoreboard)))
                           fresh_world)
                    (or_introl eq_refl))).
  - refine (proj1 (proj2 (proj2 (get_db_connection_needs_url
                                   (sample_platform (Some sample_dsn)
                                      (HttpResponse 200 (Ok sample_scoreboard)))
                                   fresh_world)
                            sample_dsn eq_refl _))
              eq_refl).
    discriminate.
Defined.

(** C6 as stated does not hold: a [DATABASE_URL] that is present but
    empty gives no connection, because [if not database_url] takes the
    empty string for a missing value. *)
Lemma present_but_empty_url_gives_no_connection :
  ~ (forall (P : platform) (w : world) (dsn : string),
       getenv_DATABASE_URL P = Some dsn ->
       exists w' c, get_db_connection P w = (w', Ok c)).
Proof.
  intros H.
  destruct (H (sample_platform (Some ""%string) (HttpFailed IndexError))
              fresh_world ""%string eq_refl) as (w' & c & E).
  discriminate E.
Qed.

(** * Further properties *)

(** ** Invariants of a transaction *)

Section Invariant.

Variable Q : database -> Prop.
Variable R : database -> database -> Prop.
Variable S : statement -> Prop.

Hypothesis R_refl : forall d, R d d.
Hypothesis R_trans : forall d1 d2 d3, R d1 d2 -> R d2 d3 -> R d1 d3.
Hypothesis step_Q :
  forall now s db, S s -> Q db -> Q (fst (run_statement now s db)).
Hypothesis step_R :
  forall now s db, S s -> R db (fst (run_statement now s db)).
Hypothesis back_Q :
  forall old cur, Q old -> Q cur -> R old cur -> Q (rolled_back old cur).

Lemma keeps_ret {A} (I : world -> Prop) (a : A) : keeps I (ret a).
Proof. now intros w H. Qed.

Lemma keeps_raise {A} (I : world -> Prop) (e : exn) : keeps I (@raise A e).
Proof. now intros w H. Qed.

Lemma keeps_bind {A B} (I : world -> Prop) (m : M A) (k : A -> M B) :
  keeps I m -> (forall a, keeps I (k a)) -> keeps I (bind m k).
Proof.
  intros Hm Hk w H. unfold bind. specialize (Hm w H).
  destruct (m w) as [w1 [a | e]]; simpl in Hm; [now apply Hk | exact Hm].
Qed.

Lemma keeps_emit (e : event) : keeps (winv Q R) (emit e).
Proof. now intros w H. Qed.

Lemma keeps_abort {A} (e : exn) : keeps (winv Q R) (@abort A e).
Proof.
  intros w H. unfold abort.
  destruct (w_conn w) as [[work now] |] eqn:C; [| exact H].
  destruct H as [Hq Hc]. destruct (Hc work now C) as [Qw Rw].
  split; [now apply back_Q | discriminate].
Qed.

Lemma keeps_execute (s : statement) : S s -> keeps (winv Q R) (execute s).
Proof.
  intros Hs w H. unfold execute.
  destruct (w_conn w) as [[work now] |] eqn:C; [| exact H].
  destruct H as [Hq Hc]. destruct (Hc work now C) as [Qw Rw].
  pose proof (step_Q now s work Hs Qw) as Q1.
  pose proof (step_R now s work Hs) as R1.
  destruct (run_statement now s work) as [work' [n | e]]; cbn [fst] in Q1, R1.
  - split; [exact Hq |]. intros k t E. inversion E; subst.
    split; [exact Q1 | eapply R_trans; eassumption].
  - unfold abort. cbn [w_conn w_db fst].
    split; [| discriminate].
    apply back_Q; [exact Hq | exact Q1 | eapply R_trans; eassumption].
Qed.

Lemma keeps_commit (c : connection) : keeps (winv Q R) (commit c).
Proof.
  intros w H. unfold commit.
  destruct (w_conn w) as [[work now] |] eqn:C; [| exact H].
  destruct H as [Hq Hc]. destruct (Hc work now C) as [Qw Rw].
  split; [exact Qw |]. intros k t E. inversion E; subst. now split.
Qed.

Lemma keeps_close (c : connection) : keeps (winv Q R) (close c).
Proof.
  intros w [Hq Hc]. unfold close.
  destruct (w_conn w) as [[work now] |] eqn:C.
  - destruct (Hc work now eq_refl) as [Qw Rw].
    split; [now apply back_Q | discriminate].
  - split; [exact Hq | discriminate].
Qed.

Lemma keeps_execute_pages {T V} (input : T -> option V) (mk : list V -> statement)
    (pages : list (list T)) :
  (forall vs, S (mk vs)) ->
  forall rowcount, keeps (winv Q R) (execute_pages input mk pages rowcount).
Proof.
  intros Hmk. induction pages as [| page pages IH]; intros rowcount; simpl.
  - apply keeps_ret.
  - destruct (all_some input page) as [vs |]; [| apply keeps_abort].
    apply keeps_bind; [now apply keeps_execute | intros n; apply IH].
Qed.

(** A new connection starts from the committed state. *)
Lemma connection_establishes (P : platform) (w : world) :
  Q (w_db w) ->
  match get_db_connection P w with
  | (w1, Ok _) => winv Q R w1
  | (w1, Raise _) => w_db w1 = w_db w
  end.
Proof.
  intros Hq. unfold get_db_connection.
  destruct (getenv_DATABASE_URL P) as [dsn |]; [| reflexivity].
  destruct (negb (String.eqb dsn "")); [| reflexivity].
  unfold psycopg2_connect. destruct (connect_error P dsn); [reflexivity |].
  split; [exact Hq |]. intros work now E. inversion E; subst. now split.
Qed.

(** A function that opens its connection first and then only does
    what keeps the invariant leaves [Q] on the committed state. *)
Lemma transaction_keeps {A} (P : platform) (rest : connection -> M A) (w : world) :
  (forall c, keeps (winv Q R) (rest c)) ->
  Q (w_db w) ->
  Q (w_db (fst (bind (get_db_connection P) rest w))).
Proof.
  intros Hrest Hq. unfold bind.
  pose proof (connection_establishes P w Hq) as E.
  destruct (get_db_connection P w) as [w1 [c | e]].
  - now apply Hrest.
  - cbn [fst]. now rewrite E.
Qed.

Lemma populate_games_keeps (P : platform) (season : Z) (week : option Z) (w : world) :
  (forall vs, S (UpsertGames vs)) ->
  Q (w_db w) ->
  Q (w_db (fst (populate_games P season week w))).
Proof.
  intros Hs Hq.
  unfold populate_games, try_except.
  assert (B : Q (w_db (fst (populate_games_body P season week w)))).
  { unfold populate_games_body, bind at 1, requests_get.
    set (w0 := World (w_db w) (w_conn w) (w_clock w) _).
    destruct (http_get P _ _) as [e0 | code body]; [exact Hq |].
    destruct (negb (code =? 200)); [exact Hq |].
    unfold bind at 1, lift. destruct body as [data | e0]; [| exact Hq].
    unfold bind at 1. destruct (parse_games P season week data) as [games | e0];
      [| exact Hq].
    destruct games as [| g games]; [exact Hq |].
    apply (transaction_keeps P _ w0); [| exact Hq].
    intros c. unfold execute_values.
    repeat first [ apply keeps_bind; [| intros ?]
                 | apply keeps_execute_pages; exact Hs
                 | apply keeps_commit | apply keeps_close | apply keeps_emit ]. }
  destruct (populate_games_body P season week w) as [w1 [[] | e]]; exact B.
Qed.

Lemma populate_teams_keeps (P : platform) (w : world) :
  (forall vs, S (InsertTeams vs)) ->
  Q (w_db w) ->
  Q (w_db (fst (populate_teams P w))).
Proof.
  intros Hs Hq. unfold populate_teams.
  apply (transaction_keeps P _ w); [| exact Hq].
  intros c. unfold execute_values.
  apply keeps_bind; [apply keeps_execute_pages; exact Hs | intros n].
  repeat first [ apply keeps_bind; [| intros ?]
               | apply keeps_commit | apply keeps_close | apply keeps_emit ].
Qed.

Lemma create_tables_keeps (P : platform) (w : world) :
  (forall name def, S (CreateTableIfNotExists name def)) ->
  Q (w_db w) ->
  Q (w_db (fst (create_tables P w))).
Proof.
  intros Hs Hq. unfold create_tables.
  apply (transaction_keeps P _ w); [| exact Hq].
  intros c.
  repeat first [ apply keeps_bind; [| intros ?]
               | apply keeps_execute; apply Hs
               | apply keeps_commit | apply keeps_close | apply keeps_emit ].
Qed.

End Invariant.

(** ** What the three writers leave alone *)

Lemma rolled_back_teams (old cur : database) :
  nfl_teams cur = nfl_teams old -> nfl_teams (rolled_back old cur) = nfl_teams old.
Proof.
  intros E. unfold rolled_back. cbn [nfl_teams]. rewrite E.
  destruct (nfl_teams old). now destruct (bool_decide _).
Qed.

Lemma rolled_back_games (old cur : database) :
  nfl_games cur = nfl_games old -> nfl_games (rolled_back old cur) = nfl_games old.
Proof.
  intros E. unfold rolled_back. cbn [nfl_games]. rewrite E.
  destruct (nfl_games old). now destruct (bool_decide _).
Qed.

Lemma run_upsert_elsewhere (now : Z) (vs : list game_values) (db : database) :
  catalog (fst (run_statement now (UpsertGames vs) db)) = catalog db
  /\ nfl_teams (fst (run_statement now (UpsertGames vs) db)) = nfl_teams db.
Proof.
  unfold run_statement. destruct (table_ready _ _ _); [easy |].
  now destruct (upsert_games _ _ _ _ _ _) as [seq' [[rs' n] | e]].
Qed.

(** X1: whatever the response and the outcome, [populate_games] leaves
    the catalog and the table [nfl_teams], rows and sequence, exactly as
    they were: it creates and drops no table and writes to [nfl_games]
    only. *)
Theorem populate_games_writes_games_only (P : platform) (season : Z)
    (week : option Z) (w : world) :
  catalog (w_db (fst (populate_games P season week w))) = catalog (w_db w)
  /\ nfl_teams (w_db (fst (populate_games P season week w))) = nfl_teams (w_db w).
Proof.
  apply (populate_games_keeps
           (fun db => catalog db = catalog (w_db w) /\ nfl_teams db = nfl_teams (w_db w))
           (fun _ _ => True) is_upsert).
  - trivial.
  - trivial.
  - intros now [name def | vs | vs] db Hs [C T]; try easy.
    destruct (run_upsert_elsewhere now vs db) as [C' T']. split; congruence.
  - trivial.
  - intros old cur [C T] [C' T'] _. split; [exact C |].
    rewrite rolled_back_teams; congruence.
  - now intros vs.
  - now split.
Qed.

Lemma run_insert_teams_elsewhere (now : Z) (vs : list team_values) (db : database) :
  catalog (fst (run_statement now (InsertTeams vs) db)) = catalog db
  /\ nfl_games (fst (run_statement now (InsertTeams vs) db)) = nfl_games db
  /\ exists added,
       rows (nfl_teams (fst (run_statement now (InsertTeams vs) db)))
       = rows (nfl_teams db) ++ added.
Proof.
  unfold run_statement. destruct (table_ready _ _ _).
  { repeat split. exists []. now rewrite app_nil_r. }
  destruct (insert_teams _ _ _ _ _) as [seq' [[rs' n] | e]] eqn:I; cbn [fst];
    repeat split.
  - now apply insert_teams_extends in I.
  - exists []. cbn [nfl_teams rows]. now rewrite app_nil_r.
Qed.

(** X2: whatever the outcome, [populate_teams] leaves the catalog and
    the table [nfl_games] as they were, and every row that was in
    [nfl_teams] where and as it was: all it does is add rows at the end.
    A team whose row was changed by hand is not reset by a later run. *)
Theorem populate_teams_only_appends (P : platform) (w : world) :
  catalog (w_db (fst (populate_teams P w))) = catalog (w_db w)
  /\ nfl_games (w_db (fst (populate_teams P w))) = nfl_games (w_db w)
  /\ exists added,
       rows (nfl_teams (w_db (fst (populate_teams P w))))
       = rows (nfl_teams (w_db w)) ++ added.
Proof.
  apply (populate_teams_keeps
           (fun db => catalog db = catalog (w_db w)
                      /\ nfl_games db = nfl_games (w_db w)
                      /\ exists added,
                           rows (nfl_teams db) = rows (nfl_teams (w_db w)) ++ added)
           (fun _ _ => True) is_insert_teams).
  - trivial.
  - trivial.
  - intros now [name def | vs | vs] db Hs (C & G & added & T); try easy.
    destruct (run_insert_teams_elsewhere now vs db) as (C' & G' & added' & T').
    repeat split; [congruence | congruence |].
    exists (added ++ added'). now rewrite T', T, app_assoc.
  - trivial.
  - intros old cur (C & G & T) (C' & G' & T') _. repeat split; [exact C | | exact T].
    rewrite rolled_back_games; congruence.
  - now intros vs.
  - repeat split. exists []. now rewrite app_nil_r.
Qed.

Lemma create_table_keeps_existing (name : string) (def : table_def) (db db' : database) :
  create_table_if_not_exists name def db = Ok db' ->
  (forall other d, catalog db !! other = Some d -> catalog db' !! other = Some d)
  /\ (is_Some (catalog db !! "nfl_teams") -> nfl_teams db' = nfl_teams db)
  /\ (is_Some (catalog db !! "nfl_games") -> nfl_games db' = nfl_games db).
Proof.
  intros H. split; [now apply (create_table_ok name def db db') |].
  unfold create_table_if_not_exists in H.
  destruct (catalog db !! name) as [d0 |] eqn:L.
  { inversion H; subst. now split. }
  destruct (forallb _ _); [| discriminate].
  inversion H; subst. cbn [nfl_teams nfl_games new_storage]. split.
  - intros [d Ld]. destruct (String.eqb_spec name "nfl_teams") as [-> | _];
      [congruence | reflexivity].
  - intros [d Ld]. destruct (String.eqb_spec name "nfl_games") as [-> | _];
      [congruence | reflexivity].
Qed.

(** X3: whatever the outcome, [create_tables] leaves every definition
    the catalog had as it was, also one that differs from the script's,
    and leaves [nfl_teams] and [nfl_games], rows and sequence, as they
    were when the table was already there: running it against a
    populated database loses no data. *)
Theorem create_tables_keeps_existing_tables (P : platform) (w : world) :
  (forall name d,
     catalog (w_db w) !! name = Some d ->
     catalog (w_db (fst (create_tables P w))) !! name = Some d)
  /\ (is_Some (catalog (w_db w) !! "nfl_teams") ->
      nfl_teams (w_db (fst (create_tables P w))) = nfl_teams (w_db w))
  /\ (is_Some (catalog (w_db w) !! "nfl_games") ->
      nfl_games (w_db (fst (create_tables P w))) = nfl_games (w_db w)).
Proof.
  apply (create_tables_keeps
           (fun db =>
              (forall name d,
                 catalog (w_db w) !! name = Some d -> catalog db !! name = Some d)
              /\ (is_Some (catalog (w_db w) !! "nfl_teams") ->
                  nfl_teams db = nfl_teams (w_db w))
              /\ (is_Some (catalog (w_db w) !! "nfl_games") ->
                  nfl_games db = nfl_games (w_db w)))
           (fun _ _ => True) is_create).
  - trivial.
  - trivial.
  - intros now [name def | vs | vs] db Hs (C & T & G); try easy.
    unfold run_statement.
    destruct (create_table_if_not_exists name def db) as [db' |] eqn:E;
      cbn [fst]; [| now repeat split].
    apply create_table_keeps_existing in E as (C' & T' & G').
    repeat split.
    + intros other d L. auto.
    + intros [d L]. rewrite T'; [now apply T; exists d | exists d; now apply C].
    + intros [d L]. rewrite G'; [now apply G; exists d | exists d; now apply C].
  - trivial.
  - intros old cur (C & T & G) (C' & T' & G') _. repeat split.
    + exact C.
    + intros I. rewrite rolled_back_teams; [now apply T |].
      rewrite T', T; trivial.
    + intros I. rewrite rolled_back_games; [now apply G |].
      rewrite G', G; trivial.
  - now intros name def.
  - now repeat split.
Qed.

Lemma create_tables_keeps_existing_tables_witness :
  let P := sample_platform (Some sample_dsn) (HttpResponse 200 (Ok sample_scoreboard)) in
  rows (nfl_games (w_db (fst (create_tables P seeded_world))))
  = rows (nfl_games (w_db seeded_world))
  /\ length (rows (nfl_games (w_db seeded_world))) = 2%nat.
Proof.
  intros P. split; [| reflexivity].
  rewrite (proj2 (proj2 (create_tables_keeps_existing_tables P seeded_world))).
  - reflexivity.
  - exists nfl_games_def. reflexivity.
Defined.

(** ** All or nothing *)

Lemma uncommitted_clean {A} (m : M A) : uncommitted m -> clean_on_error m.
Proof. intros H w w1 e E. specialize (H w). now rewrite E in H. Qed.

Lemma clean_bind {A B} (m : M A) (k : A -> M B) :
  uncommitted m -> (forall a, clean_on_error (k a)) -> clean_on_error (bind m k).
Proof.
  intros Hm Hk w w1 e. unfold bind. specialize (Hm w).
  destruct (m w) as [w2 [a | e2]]; cbn [fst] in Hm; intros E.
  - eapply same_data_trans; [eapply Hk; exact E | exact Hm].
  - inversion E; subst. exact Hm.
Qed.

Lemma uncommitted_get_db_connection (P : platform) : uncommitted (get_db_connection P).
Proof. intros w. rewrite get_db_connection_keeps. apply same_data_refl. Qed.

Lemma uncommitted_execute (s : statement) : uncommitted (execute s).
Proof. intros w. apply execute_keeps_committed. Qed.

Lemma uncommitted_execute_values {T V} (input : T -> option V)
    (mk : list V -> statement) (argslist : list T) :
  uncommitted (execute_values input mk argslist).
Proof. intros w. apply execute_pages_keeps_committed. Qed.

(** Once [commit] has returned, what the three writers still do does
    not raise. *)
Lemma clean_commit_then {A} (c : connection) (rest : M A) :
  (forall w, exists w' a, rest w = (w', Ok a)) ->
  clean_on_error (commit c ;;; rest).
Proof.
  intros Hrest w w1 e. unfold bind, commit.
  destruct (w_conn w) as [[work now] |].
  - destruct (Hrest (World work (Some (work, now)) (w_clock w) (w_trace w ++ [EvCommit])))
      as (w' & a & ->). discriminate.
  - intros E. inversion E; subst. apply same_data_refl.
Qed.

(** X4: [create_tables] is all or nothing.  When it raises, at the
    connection or at any of its four statements, the committed catalog
    and rows are those from before the call: no table has been
    created, not even the ones whose statement had gone through. *)
Theorem create_tables_all_or_nothing (P : platform) (w w1 : world) (e : exn) :
  create_tables P w = (w1, Raise e) ->
  same_data (w_db w1) (w_db w).
Proof.
  revert w w1 e. change (clean_on_error (create_tables P)). unfold create_tables.
  apply clean_bind; [apply uncommitted_get_db_connection | intros conn].
  do 4 (apply clean_bind; [apply uncommitted_execute | intros ?]).
  apply clean_commit_then. intros w. now eexists _, _.
Qed.

(** With a table [nfl_players] already there that has no unique
    [player_id], the fourth statement is refused for its foreign key:
    [create_tables] raises, and [nfl_teams] and [nfl_games] are not
    there either. *)
Lemma create_tables_all_or_nothing_witness :
  let P := sample_platform (Some sample_dsn) (HttpFailed IndexError) in
  snd (create_tables P foreign_players_world)
  = Raise (DatabaseError (InvalidForeignKey "nfl_player_stats"))
  /\ same_data (w_db (fst (create_tables P foreign_players_world)))
       (w_db foreign_players_world)
  /\ catalog (w_db (fst (create_tables P foreign_players_world))) !! "nfl_teams" = None.
Proof.
  intros P. split; [reflexivity |]. split; [| reflexivity].
  apply (create_tables_all_or_nothing P foreign_players_world
           (fst (create_tables P foreign_players_world))
           (DatabaseError (InvalidForeignKey "nfl_player_stats"))).
  reflexivity.
Defined.

(** X5: [populate_teams] is all or nothing.  When it raises, the
    committed catalog and rows are those from before the call. *)
Theorem populate_teams_all_or_nothing (P : platform) (w w1 : world) (e : exn) :
  populate_teams P w = (w1, Raise e) ->
  same_data (w_db w1) (w_db w).
Proof.
  revert w w1 e. change (clean_on_error (populate_teams P)). unfold populate_teams.
  apply clean_bind; [apply uncommitted_get_db_connection | intros conn].
  apply clean_bind; [apply uncommitted_execute_values | intros rowcount].
  apply clean_commit_then. intros w. now eexists _, _.
Qed.

(** Without the table [nfl_teams], as when [populate_teams] is called
    before [create_tables], the insert is refused and nothing is
    written. *)
Lemma populate_teams_all_or_nothing_witness :
  let P := sample_platform (Some sample_dsn) (HttpFailed IndexError) in
  snd (populate_teams P fresh_world) = Raise (DatabaseError (UndefinedTable "nfl_teams"))
  /\ same_data (w_db (fst (populate_teams P fresh_world))) (w_db fresh_world).
Proof.
  intros P. split; [reflexivity |].
  apply (populate_teams_all_or_nothing P fresh_world
           (fst (populate_teams P fresh_world))
           (DatabaseError (UndefinedTable "nfl_teams"))).
  reflexivity.
Defined.

(** ** Requests *)

(** X6: [populate_games] makes exactly one HTTP request, for the
    address of its season and week, whatever comes back and whatever
    happens afterwards; [create_tables] and [populate_teams] make
    none. *)
Theorem one_request_per_fetch (P : platform) (season : Z) (week : option Z) (w : world) :
  requests_of (w_trace (fst (populate_games P season week w)))
  = requests_of (w_trace w) ++ [scoreboard_url season week]
  /\ requests_of (w_trace (fst (create_tables P w))) = requests_of (w_trace w)
  /\ requests_of (w_trace (fst (populate_teams P w))) = requests_of (w_trace w).
Proof.
  split; [| split].
  - destruct (populate_games_trace P season week w) as (t & E & Q).
    rewrite E, requests_of_app. cbn. change (omap _ t) with (requests_of t).
    now rewrite Q.
  - destruct (silent_create_tables P w) as (t & E & Q).
    now rewrite E, requests_of_app, Q, app_nil_r.
  - destruct (silent_populate_teams P w) as (t & E & Q).
    now rewrite E, requests_of_app, Q, app_nil_r.
Qed.

(** X7: [main] can only fail in its set-up.  When it ends with an
    exception, the exception is that of [create_tables] or of
    [populate_teams], and not one scoreboard request has been made: once
    the first week is reached, [main] runs to its end. *)
Theorem main_fails_before_fetching (P : platform) (w w' : world) (e : exn) :
  main P w = (w', Raise e) ->
  requests_of (w_trace w') = requests_of (w_trace w)
  /\ exists w0 w1,
       create_tables P w0 = (w1, Raise e) \/ populate_teams P w0 = (w1, Raise e).
Proof.
  unfold main. rewrite range_weeks. unfold bind at 1 2, print at 1 2, emit.
  cbn [w_db w_conn w_clock w_trace].
  set (wb := World (w_db w) (w_conn w) (w_clock w)
               (_ ++ [EvPrint (nl +:+ "1. Creating tables...")])).
  assert (Rb : requests_of (w_trace wb) = requests_of (w_trace w)).
  { unfold wb. cbn [w_trace]. rewrite !requests_of_app. cbn. now rewrite !app_nil_r. }
  unfold bind at 1.
  destruct (silent_create_tables P wb) as (tc & Ec & Qc).
  destruct (create_tables P wb) as [wc [[] | ec]] eqn:C; cbn [fst] in Ec.
  2: { cbv beta iota. intros H. assert (Hw : wc = w') by congruence.
       assert (He : ec = e) by congruence. rewrite <- Hw, <- He. split.
       - now rewrite Ec, requests_of_app, Qc, app_nil_r.
       - exists wb, wc. now left. }
  unfold bind at 1, print at 1, emit.
  set (wd := World (w_db wc) (w_conn wc) (w_clock wc) _).
  assert (Rd : requests_of (w_trace wd) = requests_of (w_trace w)).
  { unfold wd. cbn [w_trace]. rewrite requests_of_app, Ec, requests_of_app, Qc. cbn.
    now rewrite !app_nil_r. }
  unfold bind at 1.
  destruct (silent_populate_teams P wd) as (tt' & Et & Qt).
  destruct (populate_teams P wd) as [we [[] | et]] eqn:T; cbn [fst] in Et.
  2: { cbv beta iota. intros H. assert (Hw : we = w') by congruence.
       assert (He : et = e) by congruence. rewrite <- Hw, <- He. split.
       - now rewrite Et, requests_of_app, Qt, app_nil_r.
       - exists wd, we. now right. }
  unfold bind at 1, print at 1, emit.
  set (wf := World (w_db we) (w_conn we) (w_clock we) _).
  unfold bind at 1.
  destruct (fetch_weeks_requests P [1; 2; 3; 4; 5; 6; 7; 8; 9; 10; 11] wf) as (wg & E & _).
  rewrite E. discriminate.
Qed.

Lemma main_fails_before_fetching_witness :
  let P := sample_platform (Some sample_dsn) (HttpResponse 200 (Ok sample_scoreboard)) in
  snd (main P foreign_players_world)
  = Raise (DatabaseError (InvalidForeignKey "nfl_player_stats"))
  /\ requests_of (w_trace (fst (main P foreign_players_world))) = [].
Proof.
  intros P. split; [reflexivity |].
  exact (proj1 (main_fails_before_fetching P foreign_players_world
                  (fst (main P foreign_players_world))
                  (DatabaseError (InvalidForeignKey "nfl_player_stats"))
                  eq_refl)).
Defined.

(** ** One bad event *)

Lemma parse_stops_at_bad_event (P : platform) (season : Z) (week : option Z)
    (good : list pyval) (bad : pyval) (rest : list pyval) (e : exn) :
  forallb (parses P season week) good = true ->
  parse_event P season week bad = Raise e ->
  forall games,
    rfold (fun games event => append_game P games event season week)
      (good ++ bad :: rest) games
    = Raise e.
Proof.
  intros Hgood Hbad. induction good as [| ev good IH]; intros games.
  - cbn [app rfold]. unfold append_game. now rewrite Hbad.
  - cbn [forallb] in Hgood. apply andb_prop in Hgood as [Hev Hgood].
    cbn [app rfold]. unfold append_game at 1. unfold parses in Hev.
    destruct (parse_event P season week ev) as [g |]; [| discriminate].
    cbn [rbind]. now apply IH.
Qed.

(** X8: one event the loop cannot get through loses the whole
    response.  When the events are some good ones, then one on which
    parsing raises [e], then any others, [populate_games] prints "Error
    populating games: " and [str(e)], opens no connection and writes
    nothing: the games of the good events before it are not stored
    either. *)
Theorem bad_event_discards_batch (P : platform) (season : Z) (week : option Z)
    (w : world) (data : pyval) (good : list pyval) (bad : pyval) (rest : list pyval)
    (e : exn) :
  http_get P (length (requests_of (w_trace w))) (scoreboard_url season week)
  = HttpResponse 200 (Ok data) ->
  get data "events" (JArr []) = Ok (JArr (good ++ bad :: rest)) ->
  forallb (parses P season week) good = true ->
  parse_event P season week bad = Raise e ->
  populate_games P season week w
  = (World (w_db w) (w_conn w) (w_clock w)
       (w_trace w ++ [EvHttpGet (scoreboard_url season week);
                      EvPrint ("Error populating games: " +:+ str_exn P e)]),
     Ok tt).
Proof.
  intros Hhttp Hev Hgood Hbad.
  unfold populate_games, try_except, populate_games_body, bind, requests_get.
  rewrite Hhttp. cbn [Z.eqb Pos.eqb negb lift].
  unfold parse_games. rewrite Hev. cbn [rbind iter].
  rewrite (parse_stops_at_bad_event P season week good bad rest e Hgood Hbad).
  unfold print, emit. cbn [w_db w_conn w_clock w_trace].
  now rewrite <- app_assoc.
Qed.

(** The final AAA 10 - BBB 7, followed by an event whose date is
    [null]: nothing is stored, not even the first game. *)
Lemma bad_event_discards_batch_witness :
  let data := JObj [("events",
                     JArr [sample_final_event;
                           JObj [("id", JStr "402"); ("date", JNull)]])] in
  let P := sample_platform (Some sample_dsn) (HttpResponse 200 (Ok data)) in
  populate_games P 2025 (Some 1) seeded_world
  = (World (w_db seeded_world) None 2
       (w_trace seeded_world
        ++ [EvHttpGet (week_url 1); EvPrint "Error populating games: error"]),
     Ok tt).
Proof.
  intros data P.
  apply (bad_event_discards_batch P 2025 (Some 1) seeded_world data
           [sample_final_event] (JObj [("id", JStr "402"); ("date", JNull)]) []
           (AttributeError TyNone "split"));
    reflexivity.
Defined.

(** ** The same game twice in one response *)

Lemma conflicts_same_key (v v' : game_values) (r : game_row) :
  conflicts v r = true ->
  conflicts v' r = sql_eq (gv_game_id v) (gv_game_id v').
Proof.
  intros C. apply conflicts_key in C as [E _]. unfold conflicts. now rewrite E.
Qed.

Lemma existsb_conflicts_same_key (v v' : game_values) (rs : list game_row) :
  existsb (conflicts v) rs = true ->
  sql_eq (gv_game_id v) (gv_game_id v') = true ->
  existsb (conflicts v') rs = true.
Proof.
  intros C E. apply existsb_exists in C as (r & Hin & C).
  apply existsb_exists. exists r. split; [exact Hin |].
  now rewrite (conflicts_same_key v v' r C).
Qed.

(** A statement with two tuples for one identifier fails. *)
Lemma upsert_games_repeated (now : Z) (vs : list game_values) :
  distinct_ids vs = false ->
  forall rs seq touched count,
    exists seq' e, upsert_games now vs rs seq touched count = (seq', Raise e).
Proof.
  induction vs as [| v vs IH]; intros D rs seq touched count; [discriminate |].
  cbn [distinct_ids] in D. cbn [upsert_games].
  destruct (existsb (conflicts v) rs) eqn:C.
  - destruct (existsb (fun k => sql_eq k (gv_game_id v)) touched); [eauto |].
    destruct (existsb (fun v' => sql_eq (gv_game_id v) (gv_game_id v')) vs) eqn:X.
    + apply existsb_exists in X as (v' & Hin & E).
      apply (upsert_games_refuses now vs v' Hin).
      * rewrite existsb_conflicts_map. now apply (existsb_conflicts_same_key v).
      * cbn [existsb]. now rewrite E.
    + now apply IH.
  - destruct (existsb (fun r => g_id r =? seq) rs); [eauto |].
    destruct (existsb (fun v' => sql_eq (gv_game_id v) (gv_game_id v')) vs) eqn:X.
    + apply existsb_exists in X as (v' & Hin & E).
      apply (upsert_games_refuses now vs v' Hin).
      * rewrite existsb_app. cbn [existsb]. unfold conflicts at 2.
        cbn [g_game_id new_game]. rewrite E. now rewrite orb_true_r.
      * cbn [existsb]. now rewrite E.
    + now apply IH.
Qed.

(** X9: a response that carries the same game identifier twice among
    its (at most a hundred) games loses the whole week: the server
    refuses the statement, the transaction is dropped, the error is
    printed, and the committed catalog and rows are those from before
    the call. *)
Theorem repeated_id_discards_batch (P : platform) (season : Z) (week : option Z)
    (w : world) (data : pyval) (games : list game) (vs : list game_values)
    (dsn : string) :
  http_get P (length (requests_of (w_trace w))) (scoreboard_url season week)
  = HttpResponse 200 (Ok data) ->
  parse_games P season week data = Ok games ->
  games <> [] ->
  (length games <= 100)%nat ->
  all_some (game_input P) games = Some vs ->
  getenv_DATABASE_URL P = Some dsn ->
  dsn <> ""%string ->
  connect_error P dsn = None ->
  catalog (w_db w) !! "nfl_games" = Some nfl_games_def ->
  distinct_ids vs = false ->
  exists db' e,
    populate_games P season week w
    = (World db' None (w_clock w + 1)
         (w_trace w
          ++ [EvHttpGet (scoreboard_url season week);
              EvConnect dsn;
              EvExecute (UpsertGames vs);
              EvPrint ("Error populating games: " +:+ str_exn P e)]),
       Ok tt)
    /\ same_data db' (w_db w).
Proof.
  intros Hhttp Hparse Hne Hlen Hin Henv Hdsn Hcon Hcat Hdist.
  destruct (upsert_games_repeated (w_clock w) vs Hdist (rows (nfl_games (w_db w)))
              (next_id (nfl_games (w_db w))) [] 0) as (seq' & e & U).
  eexists _, e. split.
  - unfold populate_games, try_except, populate_games_body, bind, requests_get.
    rewrite Hhttp. cbn [Z.eqb Pos.eqb negb lift]. rewrite Hparse.
    destruct games as [| g games]; [easy |].
    unfold get_db_connection. rewrite Henv.
    destruct (String.eqb_spec dsn "") as [-> | _]; [easy |]. cbn [negb].
    unfold psycopg2_connect. rewrite Hcon.
    unfold execute_values. rewrite (paginate_one_page (g :: games) Hne Hlen).
    cbn [execute_pages]. rewrite Hin.
    unfold bind, execute. cbn [w_db w_conn w_clock w_trace].
    unfold run_statement, table_ready. rewrite Hcat.
    rewrite bool_decide_eq_true_2 by reflexivity. rewrite U.
    unfold abort, print, emit. cbn [w_db w_conn w_clock w_trace].
    repeat rewrite <- app_assoc. reflexivity.
  - apply rolled_back_same_data.
Qed.

(** The final AAA 10 - BBB 7 listed twice. *)
Lemma repeated_id_discards_batch_witness :
  let data := JObj [("events", JArr [sample_final_event; sample_final_event])] in
  let P := sample_platform (Some sample_dsn) (HttpResponse 200 (Ok data)) in
  rows (nfl_games (w_db (fst (populate_games P 2025 (Some 1) seeded_world))))
  = rows (nfl_games (w_db seeded_world))
  /\ w_trace (fst (populate_games P 2025 (Some 1) seeded_world))
     = w_trace seeded_world
       ++ [EvHttpGet (week_url 1);
           EvConnect sample_dsn;
           EvExecute
             (UpsertGames
                (let v := GameValues (VText "401") (VInt 2025) (VInt 1)
                            (VDate "2025-09-07") (VText "AAA") (VText "BBB")
                            (VInt 10) (VInt 7) (VText "final") in
                 [v; v]));
           EvPrint "Error populating games: error"].
Proof.
  intros data P.
  destruct (repeated_id_discards_batch P 2025 (Some 1) seeded_world data
              (let g := Game (JStr "401") (JInt 2025) (JInt 1) (JStr "2025-09-07")
                          (JStr "AAA") (JStr "BBB") (JInt 10) (JInt 7) (JStr "final") in
               [g; g])
              (let v := GameValues (VText "401") (VInt 2025) (VInt 1)
                          (VDate "2025-09-07") (VText "AAA") (VText "BBB")
                          (VInt 10) (VInt 7) (VText "final") in
               [v; v])
              sample_dsn)
    as (db' & e & E & D); try reflexivity; try discriminate.
  - simpl. lia.
  - split; reflexivity.
Defined.

(** ** Events without an identifier *)

Lemma conflicts_null (v : game_values) (r : game_row) :
  is_null (gv_game_id v) = true -> conflicts v r = false.
Proof.
  unfold conflicts, sql_eq. destruct (gv_game_id v); try discriminate. intros _.
  destruct (g_game_id r); try reflexivity.
Qed.

Lemma existsb_conflicts_null (v : game_values) (rs : list game_row) :
  is_null (gv_game_id v) = true -> existsb (conflicts v) rs = false.
Proof.
  intros N. induction rs as [| r rs IH]; [reflexivity |].
  cbn [existsb]. now rewrite (conflicts_null v r N), IH.
Qed.

Lemma upsert_games_null (now : Z) (vs : list game_values) :
  forallb (fun v => is_null (gv_game_id v)) vs = true ->
  forall rs seq touched count,
    forallb (fun r => g_id r <? seq) rs = true ->
    upsert_games now vs rs seq touched count
    = (seq + Z.of_nat (length vs),
       Ok (rs ++ numbered_games now seq vs, count + Z.of_nat (length vs))).
Proof.
  induction vs as [| v vs IH]; intros N rs seq touched count B.
  - cbn. now rewrite app_nil_r, !Z.add_0_r.
  - cbn [forallb] in N. apply andb_prop in N as [Nv N].
    cbn [upsert_games]. rewrite (existsb_conflicts_null v rs Nv).
    rewrite (ids_below_no_clash rs seq B). rewrite IH; [| exact N |].
    + f_equal; [cbn [length]; lia |]. f_equal. f_equal.
      * cbn [numbered_games]. now rewrite <- app_assoc.
      * cbn [length]. lia.
    + rewrite forallb_app, (ids_below_step rs seq B). cbn.
      rewrite andb_true_r. apply Z.ltb_lt. lia.
Qed.

Lemma null_ids_distinct (vs : list game_values) :
  forallb (fun v => is_null (gv_game_id v)) vs = true -> distinct_ids vs = true.
Proof.
  induction vs as [| v vs IH]; [reflexivity |].
  cbn [forallb distinct_ids]. intros N. apply andb_prop in N as [Nv N].
  rewrite (IH N), andb_true_r. apply negb_true_iff.
  clear IH N. induction vs as [| v' vs IH]; [reflexivity |].
  cbn [existsb]. rewrite IH, orb_false_r.
  unfold sql_eq. now rewrite Nv.
Qed.

(** X10: an event without [id] gives a tuple whose game_id is [NULL],
    and [NULL] conflicts with nothing.  A batch of such tuples is
    inserted whole, as new rows after the rows that were there, at every
    fetch: fetching the same response again stores the same games
    again. *)
Theorem games_without_id_accumulate (P : platform) (season : Z) (week : option Z)
    (w : world) (data : pyval) (games : list game) (vs : list game_values)
    (dsn : string) :
  http_get P (length (requests_of (w_trace w))) (scoreboard_url season week)
  = HttpResponse 200 (Ok data) ->
  parse_games P season week data = Ok games ->
  games <> [] ->
  (length games <= 100)%nat ->
  all_some (game_input P) games = Some vs ->
  getenv_DATABASE_URL P = Some dsn ->
  dsn <> ""%string ->
  connect_error P dsn = None ->
  catalog (w_db w) !! "nfl_games" = Some nfl_games_def ->
  games_sequence_ahead (nfl_games (w_db w)) = true ->
  forallb (fun v => is_null (gv_game_id v)) vs = true ->
  rows (nfl_games (w_db (fst (populate_games P season week w))))
  = rows (nfl_games (w_db w))
    ++ numbered_games (w_clock w) (next_id (nfl_games (w_db w))) vs.
Proof.
  intros Hhttp Hparse Hne Hlen Hin Henv Hdsn Hcon Hcat Hseq Hnull.
  destruct (populate_games_upserts P season week w data games vs dsn
              Hhttp Hparse Hne Hlen Hin Henv Hdsn Hcon Hcat
              (null_ids_distinct vs Hnull) Hseq)
    as (rs' & n & U & E).
  rewrite E. cbn [fst w_db nfl_games rows].
  rewrite (upsert_games_null (w_clock w) vs Hnull _ _ [] 0 Hseq) in U.
  now inversion U.
Qed.

(** The same event without [id], fetched twice: two rows. *)
Lemma games_without_id_accumulate_witness :
  let P := sample_platform (Some sample_dsn) (HttpResponse 200 (Ok anonymous_scoreboard)) in
  let w1 := fst (populate_games P 2025 (Some 1) (fst (create_tables P fresh_world))) in
  rows (nfl_games (w_db (fst (populate_games P 2025 (Some 1) w1))))
  = [ GameRow 1 VNull (VInt 2025) (VInt 1) (VDate "2025-09-07") (VText "AAA")
        (VText "BBB") (VInt 10) (VInt 7) (VText "final") 1 1;
      GameRow 2 VNull (VInt 2025) (VInt 1) (VDate "2025-09-07") (VText "AAA")
        (VText "BBB") (VInt 10) (VInt 7) (VText "final") 2 2 ].
Proof.
  intros P w1.
  rewrite (games_without_id_accumulate P 2025 (Some 1) w1 anonymous_scoreboard
             [Game JNull (JInt 2025) (JInt 1) (JStr "2025-09-07") (JStr "AAA")
                (JStr "BBB") (JInt 10) (JInt 7) (JStr "final")]
             [GameValues VNull (VInt 2025) (VInt 1) (VDate "2025-09-07") (VText "AAA")
                (VText "BBB") (VInt 10) (VInt 7) (VText "final")]
             sample_dsn);
    try reflexivity; try discriminate.
  simpl. lia.
Defined.

(** ** The unique constraints *)

Lemma unique_keys_snoc (ks : list sqlval) (k : sqlval) :
  unique_keys ks = true ->
  existsb (fun k' => sql_eq k' k) ks = false ->
  unique_keys (ks ++ [k]) = true.
Proof.
  induction ks as [| k0 ks IH]; intros U E; [reflexivity |].
  cbn [unique_keys app] in *. cbn [existsb] in E.
  apply andb_prop in U as [U0 U]. apply orb_false_elim in E as [E0 E].
  rewrite (IH U E), andb_true_r. apply negb_true_iff in U0. apply negb_true_iff.
  rewrite existsb_app, U0. cbn. now rewrite E0.
Qed.

Lemma update_keeps_keys (now : Z) (v : game_values) (rs : list game_row) :
  map g_game_id (map (fun r => if conflicts v r then do_update now v r else r) rs)
  = map g_game_id rs.
Proof.
  induction rs as [| r rs IH]; [reflexivity |].
  cbn [map]. rewrite IH. now destruct (conflicts v r).
Qed.

Lemma existsb_conflicts_keys (v : game_values) (rs : list game_row) :
  existsb (conflicts v) rs
  = existsb (fun k' => sql_eq k' (gv_game_id v)) (map g_game_id rs).
Proof. induction rs as [| r rs IH]; [reflexivity |]. cbn. now rewrite IH. Qed.

Lemma upsert_games_unique (now : Z) (vs : list game_values) :
  forall rs seq touched count seq' rs' n,
    unique_keys (map g_game_id rs) = true ->
    upsert_games now vs rs seq touched count = (seq', Ok (rs', n)) ->
    unique_keys (map g_game_id rs') = true.
Proof.
  induction vs as [| v vs IH]; intros rs seq touched count seq' rs' n U H;
    cbn [upsert_games] in H.
  - now inversion H; subst.
  - destruct (existsb (conflicts v) rs) eqn:C.
    + destruct (existsb (fun k => sql_eq k (gv_game_id v)) touched); [discriminate |].
      eapply IH; [| exact H]. now rewrite update_keeps_keys.
    + destruct (existsb (fun r => g_id r =? seq) rs); [discriminate |].
      eapply IH; [| exact H]. rewrite map_app. cbn [map g_game_id new_game].
      apply unique_keys_snoc; [exact U |]. now rewrite <- existsb_conflicts_keys.
Qed.

(** X11: [populate_games] keeps the identifiers of [nfl_games] unique.
    If no two rows of the table have the same game_id before the call,
    none have after it, whatever the response and the outcome: the
    upsert updates the row of a known identifier and never adds a
    second one. *)
Theorem populate_games_keeps_ids_unique (P : platform) (season : Z) (week : option Z)
    (w : world) :
  game_ids_unique (w_db w) = true ->
  game_ids_unique (w_db (fst (populate_games P season week w))) = true.
Proof.
  apply (populate_games_keeps (fun db => game_ids_unique db = true)
           (fun _ _ => True) is_upsert).
  - trivial.
  - trivial.
  - intros now [name def | vs | vs] db Hs U; try easy.
    unfold run_statement. destruct (table_ready _ _ _); [exact U |].
    destruct (upsert_games _ _ _ _ _ _) as [seq' [[rs' n] | e]] eqn:E;
      cbn [fst]; [| exact U].
    unfold game_ids_unique. cbn [nfl_games rows].
    eapply upsert_games_unique; [exact U | exact E].
  - trivial.
  - now intros old cur U _ _.
  - now intros vs.
Qed.

Lemma populate_games_keeps_ids_unique_witness :
  let P := sample_platform (Some sample_dsn) (HttpResponse 200 (Ok refetched_scoreboard)) in
  game_ids_unique (w_db seeded_world) = true
  /\ game_ids_unique (w_db (fst (populate_games P 2025 (Some 2) seeded_world))) = true
  /\ length (rows (nfl_games (w_db (fst (populate_games P 2025 (Some 2) seeded_world)))))
     = 2%nat.
Proof.
  intros P. split; [reflexivity |]. split; [| reflexivity].
  apply (populate_games_keeps_ids_unique P 2025 (Some 2) seeded_world). reflexivity.
Defined.

Lemma insert_teams_unique (now : Z) (vs : list team_values) :
  forall rs seq count seq' rs' n,
    unique_keys (map t_team_abbr rs) = true ->
    insert_teams now vs rs seq count = (seq', Ok (rs', n)) ->
    unique_keys (map t_team_abbr rs') = true.
Proof.
  induction vs as [| v vs IH]; intros rs seq count seq' rs' n U H;
    cbn [insert_teams] in H.
  - now inversion H; subst.
  - destruct (is_null _ || is_null _); [discriminate |].
    destruct (existsb (fun r => sql_eq (t_team_abbr r) (tv_team_abbr v)) rs) eqn:C.
    + eapply IH; [exact U | exact H].
    + destruct (existsb (fun r => t_id r =? seq) rs); [discriminate |].
      eapply IH; [| exact H]. rewrite map_app. cbn [map t_team_abbr new_team].
      apply unique_keys_snoc; [exact U |].
      rewrite <- C. clear. induction rs as [| r rs IH]; [reflexivity |].
      cbn. now rewrite IH.
Qed.

(** X12: [populate_teams] keeps the abbreviations of [nfl_teams]
    unique.  If no two rows have the same team_abbr before the call,
    none have after it, whatever the outcome. *)
Theorem populate_teams_keeps_abbrs_unique (P : platform) (w : world) :
  team_abbrs_unique (w_db w) = true ->
  team_abbrs_unique (w_db (fst (populate_teams P w))) = true.
Proof.
  apply (populate_teams_keeps (fun db => team_abbrs_unique db = true)
           (fun _ _ => True) is_insert_teams).
  - trivial.
  - trivial.
  - intros now [name def | vs | vs] db Hs U; try easy.
    unfold run_statement. destruct (table_ready _ _ _); [exact U |].
    destruct (insert_teams _ _ _ _ _) as [seq' [[rs' n] | e]] eqn:E;
      cbn [fst]; [| exact U].
    unfold team_abbrs_unique. cbn [nfl_teams rows].
    eapply insert_teams_unique; [exact U | exact E].
  - trivial.
  - now intros old cur U _ _.
  - now intros vs.
Qed.

Lemma populate_teams_keeps_abbrs_unique_witness :
  let P := sample_platform (Some sample_dsn) (HttpFailed IndexError) in
  let w1 := fst (populate_teams P (fst (create_tables P fresh_world))) in
  team_abbrs_unique (w_db (fst (populate_teams P w1))) = true
  /\ length (rows (nfl_teams (w_db (fst (populate_teams P w1))))) = 32%nat.
Proof.
  intros P w1. split; [| reflexivity].
  apply (populate_teams_keeps_abbrs_unique P w1). reflexivity.
Defined.

(** ** The sequences *)

Lemma ids_below_le (rs : list game_row) (seq seq' : Z) :
  seq <= seq' ->
  forallb (fun r => g_id r <? seq) rs = true ->
  forallb (fun r => g_id r <? seq') rs = true.
Proof.
  intros L. induction rs as [| r rs IH]; [reflexivity |].
  cbn [forallb]. intros H. apply andb_prop in H as [Hr Hrs].
  rewrite (IH Hrs), andb_true_r. apply Z.ltb_lt in Hr. apply Z.ltb_lt. lia.
Qed.

Lemma team_ids_below_le (rs : list team_row) (seq seq' : Z) :
  seq <= seq' ->
  forallb (fun r => t_id r <? seq) rs = true ->
  forallb (fun r => t_id r <? seq') rs = true.
Proof.
  intros L. induction rs as [| r rs IH]; [reflexivity |].
  cbn [forallb]. intros H. apply andb_prop in H as [Hr Hrs].
  rewrite (IH Hrs), andb_true_r. apply Z.ltb_lt in Hr. apply Z.ltb_lt. lia.
Qed.

Lemma upsert_games_seq (now : Z) (vs : list game_values) :
  forall rs seq touched count seq' r,
    upsert_games now vs rs seq touched count = (seq', r) -> seq <= seq'.
Proof.
  induction vs as [| v vs IH]; intros rs seq touched count seq' r H;
    cbn [upsert_games] in H.
  - inversion H. lia.
  - destruct (existsb (conflicts v) rs).
    + destruct (existsb _ touched).
      * inversion H. lia.
      * apply IH in H. lia.
    + destruct (existsb _ rs).
      * inversion H. lia.
      * apply IH in H. lia.
Qed.

Lemma upsert_games_ahead (now : Z) (vs : list game_values) :
  forall rs seq touched count seq' rs' n,
    forallb (fun r => g_id r <? seq) rs = true ->
    upsert_games now vs rs seq touched count = (seq', Ok (rs', n)) ->
    forallb (fun r => g_id r <? seq') rs' = true.
Proof.
  induction vs as [| v vs IH]; intros rs seq touched count seq' rs' n B H;
    cbn [upsert_games] in H.
  - now inversion H; subst.
  - destruct (existsb (conflicts v) rs).
    + destruct (existsb _ touched); [discriminate |].
      eapply IH; [| exact H]. rewrite ids_below_map. now apply ids_below_step.
    + destruct (existsb _ rs); [discriminate |].
      eapply IH; [| exact H].
      rewrite forallb_app, (ids_below_step rs seq B). cbn.
      rewrite andb_true_r. apply Z.ltb_lt. lia.
Qed.

Lemma insert_teams_seq (now : Z) (vs : list team_values) :
  forall rs seq count seq' r,
    insert_teams now vs rs seq count = (seq', r) -> seq <= seq'.
Proof.
  induction vs as [| v vs IH]; intros rs seq count seq' r H; cbn [insert_teams] in H.
  - inversion H. lia.
  - destruct (is_null _ || is_null _); [inversion H; lia |].
    destruct (existsb (fun r => sql_eq (t_team_abbr r) (tv_team_abbr v)) rs).
    + apply IH in H. lia.
    + destruct (existsb _ rs); [inversion H; lia |]. apply IH in H. lia.
Qed.

Lemma insert_teams_ahead (now : Z) (vs : list team_values) :
  forall rs seq count seq' rs' n,
    forallb (fun r => t_id r <? seq) rs = true ->
    insert_teams now vs rs seq count = (seq', Ok (rs', n)) ->
    forallb (fun r => t_id r <? seq') rs' = true.
Proof.
  induction vs as [| v vs IH]; intros rs seq count seq' rs' n B H;
    cbn [insert_teams] in H.
  - now inversion H; subst.
  - destruct (is_null _ || is_null _); [discriminate |].
    destruct (existsb (fun r => sql_eq (t_team_abbr r) (tv_team_abbr v)) rs).
    + eapply IH; [| exact H]. now apply team_ids_below_step.
    + destruct (existsb _ rs); [discriminate |].
      eapply IH; [| exact H].
      rewrite forallb_app, (team_ids_below_step rs seq B). cbn.
      rewrite andb_true_r. apply Z.ltb_lt. lia.
Qed.

Lemma grows_refl (d : database) : grows d d.
Proof. repeat split; [auto | lia | lia]. Qed.

Lemma grows_trans (d1 d2 d3 : database) : grows d1 d2 -> grows d2 d3 -> grows d1 d3.
Proof.
  intros (C & T & G) (C' & T' & G'). repeat split.
  - auto.
  - intros I. specialize (T I). specialize (T' (C _ I)). lia.
  - intros I. specialize (G I). specialize (G' (C _ I)). lia.
Qed.

Lemma run_statement_grows (now : Z) (s : statement) (db : database) :
  grows db (fst (run_statement now s db)).
Proof.
  destruct s as [name def | vs | vs]; unfold run_statement.
  - unfold create_table_if_not_exists.
    destruct (catalog db !! name) as [d0 |] eqn:L; [apply grows_refl |].
    destruct (forallb _ _); [| apply grows_refl].
    cbn [fst catalog nfl_teams nfl_games new_storage]. repeat split.
    + intros other [d Lo]. exists d. cbn [catalog].
      rewrite lookup_insert_ne; [exact Lo | congruence].
    + intros [d Lt]. cbn [nfl_teams].
      destruct (String.eqb_spec name "nfl_teams") as [-> | _]; [congruence | lia].
    + intros [d Lg]. cbn [nfl_games].
      destruct (String.eqb_spec name "nfl_games") as [-> | _]; [congruence | lia].
  - destruct (table_ready _ _ _); [apply grows_refl |].
    destruct (insert_teams _ _ _ _ _) as [seq' [[rs' n] | e]] eqn:E;
      apply insert_teams_seq in E; repeat split; cbn; auto; lia.
  - destruct (table_ready _ _ _); [apply grows_refl |].
    destruct (upsert_games _ _ _ _ _ _) as [seq' [[rs' n] | e]] eqn:E;
      apply upsert_games_seq in E; repeat split; cbn; auto; lia.
Qed.

Lemma run_statement_ahead (now : Z) (s : statement) (db : database) :
  sequences_ahead db = true ->
  sequences_ahead (fst (run_statement now s db)) = true.
Proof.
  intros H. pose proof H as H0.
  unfold sequences_ahead, teams_sequence_ahead, games_sequence_ahead in H.
  apply andb_prop in H as [T G].
  destruct s as [name def | vs | vs]; unfold run_statement.
  - unfold create_table_if_not_exists.
    destruct (catalog db !! name); [exact H0 |].
    destruct (forallb (fk_ok (catalog db)) (td_foreign_keys def)); [| exact H0].
    unfold sequences_ahead, teams_sequence_ahead, games_sequence_ahead.
    cbn [fst nfl_teams nfl_games new_storage].
    destruct (String.eqb name "nfl_teams"), (String.eqb name "nfl_games");
      cbn [rows next_id empty_table forallb andb]; rewrite ?T, ?G; reflexivity.
  - destruct (table_ready _ _ _); [exact H0 |].
    unfold sequences_ahead, teams_sequence_ahead, games_sequence_ahead.
    destruct (insert_teams _ _ _ _ _) as [seq' [[rs' n] | e]] eqn:E;
      cbn [fst nfl_teams nfl_games rows next_id]; rewrite G, andb_true_r.
    + eapply insert_teams_ahead; [exact T | exact E].
    + apply insert_teams_seq in E. now apply (team_ids_below_le _ _ _ E).
  - destruct (table_ready _ _ _); [exact H0 |].
    unfold sequences_ahead, teams_sequence_ahead, games_sequence_ahead.
    destruct (upsert_games _ _ _ _ _ _) as [seq' [[rs' n] | e]] eqn:E;
      cbn [fst nfl_teams nfl_games rows next_id]; rewrite T; cbn [andb].
    + eapply upsert_games_ahead; [exact G | exact E].
    + apply upsert_games_seq in E. now apply (ids_below_le _ _ _ E).
Qed.

Lemma rolled_back_ahead (old cur : database) :
  sequences_ahead old = true ->
  sequences_ahead cur = true ->
  grows old cur ->
  sequences_ahead (rolled_back old cur) = true.
Proof.
  unfold sequences_ahead, teams_sequence_ahead, games_sequence_ahead, rolled_back.
  intros H _ (_ & GT & GG). apply andb_prop in H as [T G].
  cbn [nfl_teams nfl_games rows next_id]. apply andb_true_intro. split.
  - destruct (bool_decide_reflect (is_Some (catalog old !! "nfl_teams"))) as [I | _];
      [| exact T].
    now apply (team_ids_below_le _ _ _ (GT I)).
  - destruct (bool_decide_reflect (is_Some (catalog old !! "nfl_games"))) as [I | _];
      [| exact G].
    now apply (ids_below_le _ _ _ (GG I)).
Qed.

Lemma keeps_for_each {A} (I : world -> Prop) (xs : list A) (f : A -> M unit) :
  (forall x, keeps I (f x)) -> keeps I (for_each xs f).
Proof.
  intros Hf. induction xs as [| x xs IH]; cbn [for_each].
  - now intros w H.
  - apply keeps_bind; [apply Hf | intros _; exact IH].
Qed.

(** X13: each of [create_tables], [populate_teams] and [populate_games],
    and so [main], keeps both sequences ahead of the identifiers in
    use, whatever the responses and the outcomes, also when a
    transaction is dropped.  No run leaves the tables in a state where a
    later insert would be refused for an identifier already taken. *)
Theorem sequences_stay_ahead (P : platform) (w : world) :
  sequences_ahead (w_db w) = true ->
  sequences_ahead (w_db (fst (create_tables P w))) = true
  /\ sequences_ahead (w_db (fst (populate_teams P w))) = true
  /\ (forall season week,
        sequences_ahead (w_db (fst (populate_games P season week w))) = true)
  /\ sequences_ahead (w_db (fst (main P w))) = true.
Proof.
  intros H.
  assert (Hc : forall w0, sequences_ahead (w_db w0) = true ->
                          sequences_ahead (w_db (fst (create_tables P w0))) = true).
  { intros w0. apply (create_tables_keeps (fun db => sequences_ahead db = true)
                        grows any_statement grows_refl grows_trans).
    - intros now s db _. apply run_statement_ahead.
    - intros now s db _. apply run_statement_grows.
    - apply rolled_back_ahead.
    - easy. }
  assert (Ht : forall w0, sequences_ahead (w_db w0) = true ->
                          sequences_ahead (w_db (fst (populate_teams P w0))) = true).
  { intros w0. apply (populate_teams_keeps (fun db => sequences_ahead db = true)
                        grows any_statement grows_refl grows_trans).
    - intros now s db _. apply run_statement_ahead.
    - intros now s db _. apply run_statement_grows.
    - apply rolled_back_ahead.
    - easy. }
  assert (Hg : forall season week w0,
             sequences_ahead (w_db w0) = true ->
             sequences_ahead (w_db (fst (populate_games P season week w0))) = true).
  { intros season week w0.
    apply (populate_games_keeps (fun db => sequences_ahead db = true)
             grows any_statement grows_refl grows_trans).
    - intros now s db _. apply run_statement_ahead.
    - intros now s db _. apply run_statement_grows.
    - apply rolled_back_ahead.
    - easy. }
  repeat split; [now apply Hc | now apply Ht | intros; now apply Hg |].
  revert w H.
  change (keeps (fun w => sequences_ahead (w_db w) = true) (main P)).
  assert (Hp : forall line, keeps (fun w => sequences_ahead (w_db w) = true) (print line))
    by (intros line w0 H0; exact H0).
  unfold main.
  apply keeps_bind; [apply Hp | intros _].
  apply keeps_bind; [apply Hp | intros _].
  apply keeps_bind; [exact Hc | intros _].
  apply keeps_bind; [apply Hp | intros _].
  apply keeps_bind; [exact Ht | intros _].
  apply keeps_bind; [apply Hp | intros _].
  apply keeps_bind; [| intros _; apply Hp].
  apply keeps_for_each. intros k. unfold fetch_week.
  apply keeps_bind; [apply Hp | intros _]. intros w0. apply Hg.
Qed.

Lemma sequences_stay_ahead_witness :
  let P := sample_platform (Some sample_dsn) (HttpResponse 200 (Ok sample_scoreboard)) in
  sequences_ahead (w_db (fst (main P fresh_world))) = true
  /\ next_id (nfl_games (w_db (fst (main P fresh_world)))) = 23
  /\ next_id (nfl_teams (w_db (fst (main P fresh_world)))) = 33.
Proof.
  intros P. split; [| split; reflexivity].
  apply (sequences_stay_ahead P fresh_world). reflexivity.
Defined.

(** ** What a run of [main] establishes *)

Lemma fetch_weeks_elsewhere (P : platform) (weeks : list Z) (w : world) :
  catalog (w_db (fst (for_each weeks (fetch_week P) w))) = catalog (w_db w)
  /\ nfl_teams (w_db (fst (for_each weeks (fetch_week P) w))) = nfl_teams (w_db w).
Proof.
  set (I := fun w0 : world => catalog (w_db w0) = catalog (w_db w)
                              /\ nfl_teams (w_db w0) = nfl_teams (w_db w)).
  assert (K : keeps I (for_each weeks (fetch_week P))).
  { apply keeps_for_each. intros k. unfold fetch_week.
    apply keeps_bind; [now intros w0 H0 | intros _].
    intros w0. unfold I.
    apply (populate_games_keeps
             (fun db => catalog db = catalog (w_db w) /\ nfl_teams db = nfl_teams (w_db w))
             (fun _ _ => True) is_upsert).
    - trivial.
    - trivial.
    - intros now [name def | vs | vs] db Hs [C T]; try easy.
      destruct (run_upsert_elsewhere now vs db) as [C' T']. split; congruence.
    - trivial.
    - intros old cur [C T] [C' T'] _. split; [exact C |].
      rewrite rolled_back_teams; congruence.
    - now intros vs. }
  apply (K w). now split.
Qed.

(** X14: a run of [main] that reaches its end leaves a database in
    which the four tables are defined and every one of the 32 teams of
    the list is in [nfl_teams], whatever was there before and whatever
    the scoreboard answered. *)
Theorem main_establishes_schema_and_teams (P : platform) (w w' : world) :
  main P w = (w', Ok tt) ->
  is_Some (catalog (w_db w') !! "nfl_teams")
  /\ is_Some (catalog (w_db w') !! "nfl_games")
  /\ is_Some (catalog (w_db w') !! "nfl_players")
  /\ is_Some (catalog (w_db w') !! "nfl_player_stats")
  /\ all_present (rows (nfl_teams (w_db w'))) seed_values = true.
Proof.
  unfold main. rewrite range_weeks. intros H.
  apply bind_ok in H as (wa & [] & Ha & H).
  apply bind_ok in H as (wb & [] & Hb & H).
  apply bind_ok in H as (wc & [] & Hc & H).
  apply bind_ok in H as (wd & [] & Hd & H).
  apply bind_ok in H as (we & [] & He & H).
  apply bind_ok in H as (wf & [] & Hf & H).
  apply bind_ok in H as (wg & [] & Hg & H).
  unfold print, emit in Ha, Hb, Hd, Hf, H.
  inversion Ha; subst wa; clear Ha. inversion Hb; subst wb; clear Hb.
  apply create_tables_ok in Hc
    as (dsn & d1 & d2 & d3 & d4 & _ & _ & _ & E1 & E2 & E3 & E4 & ->).
  inversion Hd; subst wd; clear Hd.
  apply populate_teams_ok in He as (dsn' & work & n & _ & _ & _ & R & ->).
  inversion Hf; subst wf; clear Hf.
  pose proof (fetch_weeks_elsewhere P [1; 2; 3; 4; 5; 6; 7; 8; 9; 10; 11]
                (World work None (w_clock w + 1 + 1)
                   (w_trace
                      (World work None (w_clock w + 1 + 1)
                         (w_trace
                            (World d4 None (w_clock w + 1)
                               (w_trace
                                  (World d4 None (w_clock w + 1)
                                     (w_trace
                                        (World (w_db w) (w_conn w) (w_clock w)
                                           (w_trace
                                              (World (w_db w) (w_conn w) (w_clock w)
                                                 (w_trace w
                                                  ++ [EvPrint "Starting NFL data population..."]))
                                            ++ [EvPrint (nl +:+ "1. Creating tables...")]))
                                      ++ create_tables_trace dsn))
                                ++ [EvPrint (nl +:+ "2. Populating teams...")]))
                          ++ populate_teams_trace dsn' n))
                    ++ [EvPrint (nl +:+ "3. Populating games for 2025 season...")])))
    as [Kc Kt].
  cbn [w_db w_conn w_clock w_trace] in Hg, Kc, Kt.
  rewrite Hg in Kc, Kt. cbn [fst] in Kc, Kt.
  inversion H; subst w'; clear H. cbn [w_db].
  rewrite Kc, Kt.
  apply create_table_ok in E1 as [S1 K1]. apply create_table_ok in E2 as [S2 K2].
  apply create_table_ok in E3 as [S3 K3]. apply create_table_ok in E4 as [S4 K4].
  destruct (run_insert_teams_elsewhere (w_clock w + 1) seed_values d4) as (Cw & _ & _).
  cbn [w_db w_clock] in R. rewrite R in Cw. cbn [fst] in Cw.
  rewrite Cw.
  repeat split.
  - destruct S1 as [d L]. exists d. auto.
  - destruct S2 as [d L]. exists d. auto.
  - destruct S3 as [d L]. exists d. auto.
  - exact S4.
  - unfold run_statement in R. destruct (table_ready _ _ _); [discriminate |].
    destruct (insert_teams _ _ _ _ _) as [seq' [[rs' n'] | e]] eqn:I; [| discriminate].
    inversion R; subst. cbn [nfl_teams rows].
    eapply insert_teams_ok_present. exact I.
Qed.

Lemma main_establishes_schema_and_teams_witness :
  let P := sample_platform (Some sample_dsn) (HttpResponse 503 (Ok JNull)) in
  is_Some (catalog (w_db (fst (main P fresh_world))) !! "nfl_player_stats")
  /\ all_present (rows (nfl_teams (w_db (fst (main P fresh_world))))) seed_values = true.
Proof.
  intros P.
  assert (H : main P fresh_world = (fst (main P fresh_world), Ok tt))
    by (vm_compute; reflexivity).
  destruct (main_establishes_schema_and_teams P fresh_world _ H)
    as (_ & _ & _ & S4 & A).
  split; [exact S4 | exact A].
Defined.

(** ** The tuples of [games] *)

Lemma before_T_no_T (s : string) : no_T (before_T s) = true.
Proof.
  induction s as [| c s IH]; [reflexivity |].
  cbn [before_T]. destruct (Ascii.eqb c "T") eqn:E; [reflexivity |].
  cbn [no_T]. now rewrite E, IH.
Qed.

Lemma competitor_step_scores (P : platform) (s s' : sides) (c : pyval) :
  competitor_step P s c = Ok s' ->
  int_or_none (home_score s) = true ->
  int_or_none (away_score s) = true ->
  int_or_none (home_score s') = true /\ int_or_none (away_score s') = true.
Proof.
  intros H Hh Ha. apply competitor_step_ok in H as (info & I & ->).
  unfold competitor_info in I.
  destruct (get c "team" (JObj [])) as [team |]; [| discriminate]. cbn [rbind] in I.
  destruct (get team "abbreviation" JNull) as [abbr |]; [| discriminate].
  cbn [rbind] in I.
  destruct (get c "score" (JInt 0)) as [score |]; [| discriminate]. cbn [rbind] in I.
  destruct (int (int_other P) score) as [n |]; [| discriminate]. cbn [rbind] in I.
  inversion I; subst. now destruct (is_home c).
Qed.

Lemma competitors_scores (P : platform) (cs : list pyval) :
  forall s s',
    rfold (competitor_step P) cs s = Ok s' ->
    int_or_none (home_score s) = true ->
    int_or_none (away_score s) = true ->
    int_or_none (home_score s') = true /\ int_or_none (away_score s') = true.
Proof.
  induction cs as [| c cs IH]; intros s s' H Hh Ha.
  - now inversion H; subst.
  - cbn [rfold] in H.
    destruct (competitor_step P s c) as [s1 |] eqn:E; [| discriminate].
    cbn [rbind] in H.
    destruct (competitor_step_scores P s s1 c E Hh Ha) as [Hh1 Ha1].
    now apply (IH s1 s').
Qed.

(** What the loop makes of an event it does not pass over. *)
Lemma parse_event_some (P : platform) (season : Z) (week : option Z)
    (event : pyval) (g : game) :
  parse_event P season week event = Ok (Some g) ->
  has_competitions event = true
  /\ game_id g = event_id event
  /\ well_shaped season week g.
Proof.
  destruct event as [| | | | | | d]; try discriminate.
  unfold parse_event, get. cbn [rbind].
  destruct (split_T_0 _) as [gd |] eqn:D; [| discriminate]. cbn [rbind].
  unfold has_competitions.
  destruct (truthy _) eqn:Tr; [| discriminate]. cbn [negb].
  destruct (item0 _) as [[| | | | | | competition] |]; try discriminate.
  cbn [rbind].
  destruct (iter _) as [cs |]; [| discriminate]. cbn [rbind].
  destruct (rfold (competitor_step P) cs no_sides) as [s |] eqn:Rf; [| discriminate].
  cbn [rbind].
  destruct (competition_status _) as [status |]; [| discriminate]. cbn [rbind].
  destruct (competitors_scores P cs no_sides s Rf eq_refl eq_refl) as [Hh Ha].
  assert (Hd : exists dt, JStr gd = JStr dt /\ no_T dt = true).
  { exists gd. split; [reflexivity |].
    unfold split_T_0 in D.
    destruct (match dict_lookup "date" d with Some v => v | None => JStr "" end);
      try discriminate.
    inversion D. apply before_T_no_T. }
  destruct (week_given week) as [k |] eqn:W.
  - cbn [rbind]. intros H. inversion H; subst. unfold well_shaped.
    cbn [game_id game_season game_week game_date game_home_score game_away_score event_id].
    repeat split; try assumption; try reflexivity.
    intros k' E. rewrite W in E. now inversion E.
  - destruct (match dict_lookup "week" d with Some v => v | None => JObj [] end)
      as [| | | | | | wk]; try discriminate.
    cbn [rbind]. intros H. inversion H; subst. unfold well_shaped.
    cbn [game_id game_season game_week game_date game_home_score game_away_score event_id].
    repeat split; try assumption; try reflexivity.
    intros k' E. rewrite W in E. discriminate.
Qed.

Lemma parse_event_none (P : platform) (season : Z) (week : option Z) (event : pyval) :
  parse_event P season week event = Ok None ->
  has_competitions event = false.
Proof.
  destruct event as [| | | | | | d]; try discriminate.
  unfold parse_event, get. cbn [rbind].
  destruct (split_T_0 _) as [game_date |]; [| discriminate]. cbn [rbind].
  unfold has_competitions.
  destruct (truthy _); [| reflexivity]. cbn [negb].
  destruct (item0 _) as [[| | | | | | competition] |]; try discriminate.
  cbn [rbind].
  destruct (iter _) as [cs |]; [| discriminate]. cbn [rbind].
  destruct (rfold (competitor_step P) cs no_sides) as [s |]; [| discriminate].
  cbn [rbind].
  destruct (competition_status _) as [status |]; [| discriminate]. cbn [rbind].
  destruct (week_given week) as [k |]; [discriminate |].
  destruct (match dict_lookup "week" d with Some v => v | None => JObj [] end)
    as [| | | | | | wk]; try discriminate.
Qed.

Lemma parse_loop_ids (P : platform) (season : Z) (week : option Z) (es : list pyval) :
  forall games0 games,
    rfold (fun games event => append_game P games event season week) es games0
    = Ok games ->
    map game_id games
    = map game_id games0 ++ map event_id (List.filter has_competitions es)
    /\ (Forall (well_shaped season week) games0 ->
        Forall (well_shaped season week) games).
Proof.
  induction es as [| ev es IH]; intros games0 games H.
  - inversion H; subst. now rewrite app_nil_r.
  - cbn [rfold] in H. unfold append_game at 1 in H.
    destruct (parse_event P season week ev) as [[g |] |] eqn:E; [| | discriminate];
      cbn [rbind] in H; apply IH in H as [Hids Hshape].
    + apply parse_event_some in E as (Hc & Hid & Hw).
      change (List.filter has_competitions (ev :: es))
        with (if has_competitions ev
              then ev :: List.filter has_competitions es
              else List.filter has_competitions es).
      rewrite Hc. split.
      * rewrite Hids, map_app. cbn [map]. rewrite Hid. now rewrite <- app_assoc.
      * intros F. apply Hshape. apply Forall_app. split; [exact F |].
        now constructor.
    + apply parse_event_none in E.
      change (List.filter has_competitions (ev :: es))
        with (if has_competitions ev
              then ev :: List.filter has_competitions es
              else List.filter has_competitions es).
      rewrite E. now split.
Qed.

(** X15: a response that is parsed gives one tuple for each event
    that has competitions and none for the others, in the order of the
    response, each with the [id] of its event ([None] when the event has
    none). *)
Theorem parsed_games_follow_events (P : platform) (season : Z) (week : option Z)
    (data : pyval) (es : list pyval) (games : list game) :
  get data "events" (JArr []) = Ok (JArr es) ->
  parse_games P season week data = Ok games ->
  map game_id games = map event_id (List.filter has_competitions es)
  /\ (length games <= length es)%nat.
Proof.
  intros Hev H. unfold parse_games in H. rewrite Hev in H. cbn [rbind iter] in H.
  apply parse_loop_ids in H as [Hids _]. cbn [map app] in Hids.
  split; [exact Hids |].
  rewrite <- (length_map game_id), Hids, length_map.
  apply List.filter_length_le.
Qed.

Lemma parsed_games_follow_events_witness :
  map game_id sample_games = [JStr "401"; JStr "402"]
  /\ (length sample_games <= 2)%nat.
Proof.
  exact (parsed_games_follow_events
           (sample_platform None (HttpFailed IndexError)) 2025 (Some 1)
           sample_scoreboard _ sample_games eq_refl eq_refl).
Defined.

(** X16: every tuple of a parsed response has the season of the call
    and, when a week other than 0 was given, that week, whatever the
    event says of its own week; its date is a text without [T], the part
    of the event's date before the time; and each of its two scores is
    an integer or [None]. *)
Theorem parsed_games_well_shaped (P : platform) (season : Z) (week : option Z)
    (data : pyval) (games : list game) :
  parse_games P season week data = Ok games ->
  Forall (well_shaped season week) games.
Proof.
  unfold parse_games.
  destruct (get data "events" (JArr [])) as [events |]; [| discriminate].
  cbn [rbind]. destruct (iter events) as [es |]; [| discriminate]. cbn [rbind].
  intros H. apply parse_loop_ids in H as [_ Hshape]. now apply Hshape.
Qed.

Lemma parsed_games_well_shaped_witness :
  Forall (well_shaped 2025 (Some 7))
    [ Game (JStr "402") (JInt 2025) (JInt 7) (JStr "2025-09-09")
        (JStr "DDD") (JStr "CCC") (JInt 21) (JInt 17) (JStr "final") ].
Proof.
  exact (parsed_games_well_shaped
           (sample_platform None (HttpFailed IndexError)) 2025 (Some 7)
           refetched_scoreboard _ eq_refl).
Defined.

(** ** The count [populate_teams] reports *)

Lemma insert_teams_count (now : Z) (vs : list team_values) :
  forall rs seq count seq' rs' n,
    insert_teams now vs rs seq count = (seq', Ok (rs', n)) ->
    n - count = Z.of_nat (length rs') - Z.of_nat (length rs)
    /\ count <= n <= count + Z.of_nat (length vs).
Proof.
  induction vs as [| v vs IH]; intros rs seq count seq' rs' n H;
    cbn [insert_teams] in H.
  - inversion H; subst. cbn. lia.
  - destruct (is_null _ || is_null _); [discriminate |].
    destruct (existsb (fun r => sql_eq (t_team_abbr r) (tv_team_abbr v)) rs).
    + apply IH in H. cbn [length]. lia.
    + destruct (existsb _ rs); [discriminate |].
      apply IH in H. rewrite length_app in H. cbn [length] in *. lia.
Qed.

(** X17: the number [populate_teams] prints after "Inserted" is the
    number of rows it has added to [nfl_teams], between 0 and 32: the
    teams that were already there are not counted. *)
Theorem populate_teams_reports_rows_added (P : platform) (w w1 : world) :
  populate_teams P w = (w1, Ok tt) ->
  exists dsn rowcount,
    w_trace w1 = w_trace w ++ populate_teams_trace dsn rowcount
    /\ Z.of_nat (length (rows (nfl_teams (w_db w1))))
       = Z.of_nat (length (rows (nfl_teams (w_db w)))) + rowcount
    /\ 0 <= rowcount <= 32.
Proof.
  intros H. apply populate_teams_ok in H as (dsn & work & n & _ & _ & _ & R & ->).
  exists dsn, n. split; [reflexivity |]. cbn [w_db].
  unfold run_statement in R. destruct (table_ready _ _ _); [discriminate |].
  destruct (insert_teams _ _ _ _ _) as [seq' [[rs' n'] | e]] eqn:I; [| discriminate].
  inversion R; subst. cbn [nfl_teams rows].
  apply insert_teams_count in I as [D B].
  change (Z.of_nat (length seed_values)) with 32 in B. lia.
Qed.

(** Two of the 32 teams are there already: 30 rows are added and
    reported. *)
Lemma populate_teams_reports_rows_added_witness :
  let P := sample_platform (Some sample_dsn) (HttpFailed IndexError) in
  let w0 := World (Database {["nfl_teams" := nfl_teams_def]}
                     (Table [TeamRow 1 (VText "Green Bay") (VText "GB") VNull VNull 0;
                             TeamRow 2 (VText "Niners") (VText "SF") VNull VNull 0] 3)
                     empty_table)
                  None 5 [] in
  exists dsn,
    w_trace (fst (populate_teams P w0)) = populate_teams_trace dsn 30
    /\ length (rows (nfl_teams (w_db (fst (populate_teams P w0))))) = 32%nat.
Proof.
  intros P w0.
  destruct (populate_teams_reports_rows_added P w0 (fst (populate_teams P w0)))
    as (dsn & n & T & L & B); [reflexivity |].
  exists sample_dsn. split; reflexivity.
Defined.
